(** * Backup handler, backup client and organization-config handlers

    A shallow embedding of [src/server/org_config.go]: the Go handlers are
    written as state-passing functions over an explicit world (file system,
    response writer, call log), their collaborators (Go interfaces) are
    records of functions, and Go's [error] is an optional error value with
    [None] for [nil]. Tracing spans and the request context carry no data
    that the handlers branch on and are left out; library calls (os,
    strconv, path/filepath, encoding/json, io, multierr) are modelled next
    to the code that uses them. What a fetch meets at the other end of the
    wire is outside the source; [Remote] models it from the description
    of the retrieval service. *)

From Stdlib Require Import ZArith Lia.
From Stdlib.Strings Require Import Ascii Byte.
From Stdlib Require DecimalString DecimalZ DecimalPos.
From stdpp Require Import gmap strings list fin_maps.

Local Open Scope Z_scope.
Local Open Scope string_scope.
Local Open Scope list_scope.
Set Warnings "-register-all".

(* ===================================================================== *)
(** * Part I: definitions                                                 *)
(* ===================================================================== *)

(** ** Go error values and go.uber.org/multierr *)
Module Multierr.

(** One cause: an error that is not an aggregate ([influxdb.Error] with its
    code, an [*os.PathError], a [fmt.Errorf] value with an empty code). *)
Record cause := Cause { Code : string; Msg : string }.

(** A non-nil error: a single cause or a multierr aggregate. *)
Inductive errval :=
| Plain (c : cause)
| Multi (cs : list cause).

(** Go's [error] interface value; [None] is [nil]. *)
Definition error := option errval.

#[global] Instance cause_eq_dec : EqDecision cause.
Proof. solve_decision. Defined.
#[global] Instance errval_eq_dec : EqDecision errval.
Proof. solve_decision. Defined.

(** [multierr.Errors]: the list of causes an error stands for. *)
Definition Errors (err : error) : list cause :=
  match err with
  | None => []
  | Some (Plain c) => [c]
  | Some (Multi cs) => cs
  end.

(** [multierr.Append(left, right)]: nil is neutral on both sides, two
    non-nil errors give one aggregate whose causes are those of [left]
    followed by those of [right] (aggregates are flattened). *)
Definition Append (left right : error) : error :=
  match left, right with
  | None, _ => right
  | _, None => left
  | Some _, Some _ => Some (Multi (Errors left ++ Errors right))
  end.

(** [fmt.Errorf] with an already formatted message. *)
Definition Errorf (msg : string) : errval := Plain (Cause "" msg).

Definition joinMsgs (cs : list cause) : string :=
  String.concat "; " (map Msg cs).

(** The [Error()] method. *)
Definition Error (e : errval) : string :=
  match e with
  | Plain c => Msg c
  | Multi cs => joinMsgs cs
  end.

End Multierr.
Export Multierr.

(** ** A state monad for the handlers *)
Module StateM.

Definition M (St A : Type) : Type := St -> A * St.

Definition ret {St A} (a : A) : M St A := fun st => (a, st).

Definition bind {St A B} (m : M St A) (k : A -> M St B) : M St B :=
  fun st => let (a, st') := m st in k a st'.

Definition modify {St} (f : St -> St) : M St unit := fun st => (tt, f st).

(** Run a handler for its effect on the world. *)
Definition exec {St A} (m : M St A) (st : St) : St := snd (m st).

End StateM.
Export StateM.

Declare Scope go_scope.
Delimit Scope go_scope with go.
Notation "'do' x <- c1 ;; c2" := (bind c1 (fun x => c2))
  (at level 10, x name, c1 at level 99, c2 at level 200) : go_scope.
Local Open Scope go_scope.

(** ** Organization config: the log viewer section *)
Module OrgConfig.

(** [chronograf.ColumnEncoding], [chronograf.LogViewerColumn],
    [chronograf.LogViewerConfig], [chronograf.OrganizationConfig]. *)
Record ColumnEncoding := {
  enc_Type : string;
  enc_Value : string;
  enc_Name : string
}.

Record LogViewerColumn := {
  clm_Name : string;
  clm_Position : Z;               (* int32 *)
  clm_Encodings : list ColumnEncoding
}.

Record LogViewerConfig := { Columns : list LogViewerColumn }.

Record OrganizationConfig := {
  OrganizationID : string;
  LogViewer : LogViewerConfig
}.

Record logViewerConfigResponse := {
  lv_Self : string;
  lv_LogViewerConfig : LogViewerConfig
}.

Definition newLogViewerConfigResponse (lv : LogViewerConfig) : logViewerConfigResponse :=
  {| lv_Self := "/chronograf/v1/org_config/logviewer"; lv_LogViewerConfig := lv |}.

(** The counters of one pass over a column's encodings. *)
Record counts := { iconCount : Z; textCount : Z; visibility : Z }.

(** The inner loop of [validLogViewerConfig]: [for _, e := range clm.Encodings]. *)
Fixpoint encodingsLoop (clm : LogViewerColumn) (es : list ColumnEncoding) (c : counts)
  : errval + counts :=
  match es with
  | [] => inr c
  | e :: es' =>
      let isVis := (enc_Type e =? "visibility")%string in
      let c1 := if isVis then {| iconCount := iconCount c; textCount := textCount c;
                                 visibility := visibility c + 1 |} else c in
      if isVis && negb ((enc_Value e =? "visible")%string || (enc_Value e =? "hidden")%string)
      then inl (Errorf ("Invalid log viewer config: invalid visibility in column " +:+ clm_Name clm))
      else
        let c2 :=
          if (clm_Name clm =? "severity")%string then
            if (enc_Value e =? "icon")%string then
              {| iconCount := iconCount c1 + 1; textCount := textCount c1; visibility := visibility c1 |}
            else if (enc_Value e =? "text")%string then
              {| iconCount := iconCount c1; textCount := textCount c1 + 1; visibility := visibility c1 |}
            else c1
          else c1 in
        encodingsLoop clm es' c2
  end.

(** The outer loop: [for _, clm := range cfg.Columns], with the two maps
    [nameMatcher] and [positionMatcher] threaded through. *)
Fixpoint columnsLoop (clms : list LogViewerColumn)
    (nameMatcher : gmap string bool) (positionMatcher : gmap Z bool) : error :=
  match clms with
  | [] => None
  | clm :: clms' =>
      match nameMatcher !! clm_Name clm with
      | Some _ => Some (Errorf ("Invalid log viewer config: Duplicate column name " +:+ clm_Name clm))
      | None =>
          let nameMatcher := <[clm_Name clm := true]> nameMatcher in
          match positionMatcher !! clm_Position clm with
          | Some _ => Some (Errorf "Invalid log viewer config: Multiple columns with same position value")
          | None =>
              let positionMatcher := <[clm_Position clm := true]> positionMatcher in
              match encodingsLoop clm (clm_Encodings clm)
                      {| iconCount := 0; textCount := 0; visibility := 0 |} with
              | inl e => Some e
              | inr c =>
                  if negb (visibility c =? 1)%Z then
                    Some (Errorf ("Invalid log viewer config: missing visibility encoding in column "
                                  +:+ clm_Name clm))
                  else if (clm_Name clm =? "severity")%string
                          && ((iconCount c + textCount c =? 0)%Z
                              || (1 <? iconCount c)%Z || (1 <? textCount c)%Z) then
                    Some (Errorf ("Invalid log viewer config: invalid number of severity format encodings in column "
                                  +:+ clm_Name clm))
                  else columnsLoop clms' nameMatcher positionMatcher
              end
          end
      end
  end.

Definition validLogViewerConfig (cfg : LogViewerConfig) : error :=
  if (length (Columns cfg) =? 0)%nat then
    Some (Errorf "Invalid log viewer config: must have at least 1 column")
  else columnsLoop (Columns cfg) ∅ ∅.

(** What a handler sends back. *)
Inductive response :=
| RespError (status : Z) (msg : string)           (* Error(w, status, msg, logger) *)
| RespInvalidJSON                                  (* invalidJSON(w, logger) *)
| RespUnknownError (err : errval)                  (* unknownErrorWithMessage(w, err, logger) *)
| RespJSON (status : Z) (res : logViewerConfigResponse). (* encodeJSON(w, status, res, logger) *)

(** A response that reports a failure to the client. *)
Definition isErrorResponse (resp : response) : bool :=
  match resp with
  | RespJSON _ _ => false
  | _ => true
  end.

Definition StatusOK : Z := 200.
Definition StatusBadRequest : Z := 400.

(** Calls made on the [OrganizationConfigStore]. *)
Inductive storeCall :=
| CallFindOrCreate (orgID : string)
| CallUpdate (config : OrganizationConfig).

(** The request as the handler reads it: the organization on the request
    context ([hasOrganizationContext]) and the raw body. *)
Record Request := {
  ctxOrganization : option string;
  Body : string
}.

Section Handlers.
(** The store behind [s.Store.OrganizationConfig(ctx)] has a state of
    its own; [json.NewDecoder(r.Body).Decode] is the decoder of
    encoding/json for [chronograf.LogViewerConfig]. *)
Context {S : Type}.

Record OrganizationConfigStore := {
  FindOrCreate : string -> S -> (option OrganizationConfig * error) * S;
  Update : OrganizationConfig -> S -> error * S
}.

Record Service := {
  Store : OrganizationConfigStore;
  jsonDecode : string -> errval + LogViewerConfig
}.

Record World := {
  store : S;
  calls : list storeCall;
  out : list response
}.

Definition respond (r : response) : M World unit :=
  modify (fun st => {| store := store st; calls := calls st; out := out st ++ [r] |}).

Definition callFindOrCreate (s : Service) (orgID : string)
  : M World (option OrganizationConfig * error) :=
  fun st =>
    let (r, store') := FindOrCreate (Store s) orgID (store st) in
    (r, {| store := store'; calls := calls st ++ [CallFindOrCreate orgID]; out := out st |}).

Definition callUpdate (s : Service) (config : OrganizationConfig) : M World error :=
  fun st =>
    let (r, store') := Update (Store s) config (store st) in
    (r, {| store := store'; calls := calls st ++ [CallUpdate config]; out := out st |}).

Definition hasOrganizationContext (r : Request) : option string := ctxOrganization r.

Definition ReplaceLogViewerOrganizationConfig (s : Service) (r : Request) : M World unit :=
  match hasOrganizationContext r with
  | None => respond (RespError StatusBadRequest "Organization not found on context")
  | Some orgID =>
      match jsonDecode s (Body r) with
      | inl _ => respond RespInvalidJSON
      | inr logViewerConfig =>
          match validLogViewerConfig logViewerConfig with
          | Some err => respond (RespError StatusBadRequest (Error err))
          | None =>
              do found <- callFindOrCreate s orgID ;;
              let '(config, err) := found in
              match err with
              | Some e => respond (RespError StatusBadRequest (Error e))
              | None =>
                  match config with
                  | None => respond (RespError StatusBadRequest
                                       "Organization configuration object was nil")
                  | Some config =>
                      let config := {| OrganizationID := OrganizationID config;
                                       LogViewer := logViewerConfig |} in
                      let res := newLogViewerConfigResponse (LogViewer config) in
                      do err <- callUpdate s config ;;
                      match err with
                      | Some e => respond (RespUnknownError e)
                      | None => respond (RespJSON StatusOK res)
                      end
                  end
              end
          end
      end
  end.

End Handlers.
Arguments OrganizationConfigStore : clear implicits.
Arguments Service : clear implicits.
Arguments World : clear implicits.

End OrgConfig.

(** ** encoding/json for the [backup] manifest *)
Module JSON.

Inductive json :=
| JNum (n : Z)
| JStr (s : string)
| JArr (items : list json)
| JObj (fields : list (string * json)).

(** [type backup struct { ID int `json:"id,omitempty"`; Files []string `json:"files,omitempty"` }] *)
Record backup := { ID : Z; Files : list string }.

(** [json.Marshal] of a [backup]: fields in declaration order, and
    [omitempty] drops a zero [ID] and an empty [Files]. The file names
    are kept as they are: the escaping of a string and the replacement of
    bytes that are not valid UTF-8 are those of the encoder and not
    modelled, so nothing below tells two names apart by their encoding. *)
Definition marshalBackup (b : backup) : json :=
  JObj ((if (ID b =? 0)%Z then [] else [("id", JNum (ID b))]) ++
        (if (length (Files b) =? 0)%nat then [] else [("files", JArr (map JStr (Files b)))])).

(** How often [name] is listed. *)
Definition occurrences (name : string) (l : list string) : nat :=
  length (filter (fun f => f = name) l).

(** The names of the fields of an encoded object. *)
Definition fieldNames (j : json) : list string :=
  match j with
  | JObj fields => map fst fields
  | _ => []
  end.

Definition field (name : string) (j : json) : option json :=
  match j with
  | JObj fields => snd <$> List.find (fun kv => (fst kv =? name)%string) fields
  | _ => None
  end.

End JSON.
Export JSON.

(** ** The file system under the backup directories (package os) *)
Module OS.

(** A cleaned path, as its components; [filepath.Join] of a directory and
    a single file name appends one component. *)
Definition path := list string.

Definition Join (dir : path) (name : string) : path := (dir ++ [name])%list.

Inductive node :=
| Dir
| File (content : list Byte.byte).

(** The tree, and the entries that the process may not create, truncate
    or remove (a permission or an immutable flag). *)
Record FS := {
  nodes : gmap path node;
  locked : gset path
}.

Definition EACCES : errval := Plain (Cause "EACCES" "permission denied").
Definition ENOENT : errval := Plain (Cause "ENOENT" "no such file or directory").
Definition EISDIR : errval := Plain (Cause "EISDIR" "is a directory").

Definition parentOf (p : path) : path := removelast p.

(** [os.OpenFile(name, os.O_CREATE|os.O_TRUNC|os.O_WRONLY, 0660)]: the
    handle of the created or truncated file is its path. *)
Definition OpenFile (name : path) (fs : FS) : (errval + path) * FS :=
  if decide (name ∈ locked fs) then (inl EACCES, fs)
  else match nodes fs !! name with
       | Some Dir => (inl EISDIR, fs)
       | _ =>
           match nodes fs !! parentOf name with
           | Some Dir => (inr name, {| nodes := <[name := File []]> (nodes fs); locked := locked fs |})
           | _ => (inl ENOENT, fs)
           end
       end.

(** [Write] on an open file: the bytes are appended. *)
Definition appendFile (f : path) (data : list Byte.byte) (fs : FS) : FS :=
  {| nodes := alter (fun n => match n with
                              | File old => File (old ++ data)%list
                              | Dir => Dir
                              end) f (nodes fs);
     locked := locked fs |}.

(** The locked entries that exist at or below [p]. *)
Definition stuck (p : path) (fs : FS) : gset path :=
  filter (fun l => p `prefix_of` l ∧ is_Some (nodes fs !! l)) (locked fs).

(** [os.RemoveAll(p)]: removes [p] and everything below it; an entry that
    cannot be removed stays, with the directories above it, and the call
    reports an error. A path that does not exist is not an error. *)
Definition RemoveAll (p : path) (fs : FS) : error * FS :=
  let keep := stuck p fs in
  (if decide (keep = ∅) then None else Some EACCES,
   {| nodes := filter (fun kv => ¬ p `prefix_of` kv.1
                                 ∨ set_Exists (fun l => kv.1 `prefix_of` l) keep) (nodes fs);
      locked := locked fs |}).

(** No entry at or below [p]. *)
Definition absent (p : path) (fs : FS) : Prop :=
  ∀ k, p `prefix_of` k → nodes fs !! k = None.

End OS.
Export OS.

(** ** strconv.Atoi *)
Module Strconv.

Definition isDigit (c : Ascii.ascii) : bool :=
  (48 <=? Ascii.nat_of_ascii c)%nat && (Ascii.nat_of_ascii c <=? 57)%nat.

Fixpoint digits (acc : Z) (s : string) : option Z :=
  match s with
  | EmptyString => Some acc
  | String c s' =>
      if isDigit c then digits (acc * 10 + (Z.of_nat (Ascii.nat_of_ascii c) - 48)) s' else None
  end.

Fixpoint allDigits (s : string) : bool :=
  match s with
  | EmptyString => true
  | String c s' => isDigit c && allDigits s'
  end.

(** A decimal integer as a text: an optional sign and at least one
    decimal digit, nothing else. *)
Definition isDecimalInteger (s : string) : bool :=
  let body :=
    match s with
    | String "-"%char rest => rest
    | String "+"%char rest => rest
    | _ => s
    end in
  match body with
  | EmptyString => false
  | _ => allDigits body
  end.

Definition minInt : Z := - 2 ^ 63.
Definition maxInt : Z := 2 ^ 63 - 1.

Definition syntaxError (s : string) : errval :=
  Plain (Cause "" ("strconv.Atoi: parsing " +:+ s +:+ ": invalid syntax")).
Definition rangeError (s : string) : errval :=
  Plain (Cause "" ("strconv.Atoi: parsing " +:+ s +:+ ": value out of range")).

(** An optional sign, then one or more decimal digits, and the value has
    to fit Go's 64-bit [int]. *)
Definition Atoi (s : string) : errval + Z :=
  let '(neg, body) :=
    match s with
    | String "-"%char rest => (true, rest)
    | String "+"%char rest => (false, rest)
    | _ => (false, s)
    end in
  match body with
  | EmptyString => inl (syntaxError s)
  | _ =>
      match digits 0 body with
      | None => inl (syntaxError s)
      | Some n =>
          let v := if neg then - n else n in
          if (minInt <=? v)%Z && (v <=? maxInt)%Z then inr v else inl (rangeError s)
      end
  end.

End Strconv.

(** ** path/filepath on a slash-separated system *)
Module Filepath.

(** [strings.Split(s, "/")]: the segments between the slashes, the empty
    ones too. *)
Fixpoint segments (s : string) : list string :=
  match s with
  | EmptyString => [""]
  | String c rest =>
      if Ascii.eqb c "/" then "" :: segments rest
      else match segments rest with
           | seg :: segs => String c seg :: segs
           | [] => [String c ""]
           end
  end.

Definition isRooted (p : string) : bool :=
  match p with
  | String c _ => Ascii.eqb c "/"
  | EmptyString => false
  end.

(** One segment of the path in [Clean]; [out] holds the segments kept so
    far, the last one first. An empty segment and [.] are dropped; [..]
    takes away the segment before it, is dropped at the root, and is kept
    where a relative path has nothing left to take away. *)
Definition cleanStep (rooted : bool) (out : list string) (seg : string) : list string :=
  if (seg =? "")%string || (seg =? ".")%string then out
  else if (seg =? "..")%string then
    match out with
    | top :: below => if (top =? "..")%string then seg :: out else below
    | [] => if rooted then [] else [seg]
    end
  else seg :: out.

(** [filepath.Clean]: the shortest path that names the same place. *)
Definition Clean (p : string) : string :=
  let out := rev (fold_left (cleanStep (isRooted p)) (segments p) []) in
  let r := (if isRooted p then "/" else "") +:+ String.concat "/" out in
  if (r =? "")%string then "." else r.

Fixpoint dropEmpty (elem : list string) : list string :=
  match elem with
  | EmptyString :: rest => dropEmpty rest
  | _ => elem
  end.

(** [filepath.Join(elem...)]: the elements from the first non-empty one
    on, joined by slashes and cleaned; the empty string when there is
    none. *)
Definition Join (elem : list string) : string :=
  match dropEmpty elem with
  | [] => ""
  | l => Clean (String.concat "/" l)
  end.

(** A name that is one segment of a clean path: not empty, neither [.]
    nor [..], and without a slash. *)
Fixpoint noSeparator (s : string) : bool :=
  match s with
  | EmptyString => true
  | String c rest => negb (Ascii.eqb c "/") && noSeparator rest
  end.

Definition plainName (s : string) : bool :=
  noSeparator s && negb (s =? "")%string && negb (s =? ".")%string && negb (s =? "..")%string.

End Filepath.
Export Strconv.

(** ** The backup handler (package http, server side) *)
Module Server.

(** Package bolt is outside src; the handler only uses its constant
    [bolt.DefaultFilename], the reserved name of the metadata file. *)
Class Bolt := { DefaultFilename : string }.

(** What has been written to the [http.ResponseWriter]: encoded JSON
    documents and raw bytes. [rw_fail] is the error every [Write] returns
    from now on (the peer has gone away), [None] for a healthy writer. A
    [Write] that fails is taken to have written nothing; a [Write] that
    takes part of its bytes and then fails is not modelled, so nothing
    below is stated about the bytes of a response whose [Write] failed. *)
Inductive Frame :=
| FrameJSON (j : json)
| FrameBytes (bs : list Byte.byte).

Record ResponseWriter := {
  rw_body : list Frame;
  rw_fail : error
}.

Definition rwWrite (f : Frame) (w : ResponseWriter) : error * ResponseWriter :=
  match rw_fail w with
  | Some e => (Some e, w)
  | None => (None, {| rw_body := rw_body w ++ [f]; rw_fail := rw_fail w |})
  end.

(** Calls made by a handler, in order, each with what it returned. *)
Inductive event :=
| EvCreateBackup (id : Z) (files : list string) (err : error)
| EvOpenFile (name : path) (err : error)
| EvBackup (metaFile : path) (err : error)
| EvEncode (b : backup) (err : error)
| EvRemoveAll (p : path) (err : error)
| EvFetchBackupFile (backupID : Z) (backupFile : string) (err : error)
| EvHandleHTTPError (err : error).

(** The errors handed to [HandleHTTPError]. *)
Definition reported (evs : list event) : list error :=
  omap (fun ev => match ev with EvHandleHTTPError err => Some err | _ => None end) evs.

(** The error [e] came back from one of the three steps that follow the
    allocation: opening the metadata file, the metadata snapshot, or the
    encoding of the manifest. *)
Definition failsAfterAllocation (e : errval) (evs : list event) : Prop :=
  (∃ name, EvOpenFile name (Some e) ∈ evs)
  ∨ (∃ metaFile, EvBackup metaFile (Some e) ∈ evs)
  ∨ (∃ b, EvEncode b (Some e) ∈ evs).

Definition isRollback (ev : event) : bool :=
  match ev with EvRemoveAll _ _ => true | _ => false end.

Definition isOpenFile (ev : event) : bool :=
  match ev with EvOpenFile _ _ => true | _ => false end.

Definition isFetch (ev : event) : bool :=
  match ev with EvFetchBackupFile _ _ _ => true | _ => false end.

(** [httprouter.Params] and its [ByName]. *)
Definition Params := list (string * string).

Fixpoint ByName (ps : Params) (name : string) : string :=
  match ps with
  | [] => ""
  | (k, v) :: ps' => if (k =? name)%string then v else ByName ps' name
  end.

Section Handlers.
(** [E] is the private state of the storage engine behind
    [influxdb.BackupService]. *)
Context {E : Type} `{Bolt}.

(** [influxdb.BackupService]: the engine allocates the backup, stages
    the shard files and serves them. *)
Record BackupService := {
  CreateBackup : E * FS -> (Z * list string * error) * (E * FS);
  FetchBackupFile : Z -> string -> ResponseWriter -> E * FS -> (error * ResponseWriter) * (E * FS);
  InternalBackupPath : Z -> path
}.

(** [influxdb.KVBackupService]: [Backup(ctx, w)] writes [snapshot] to
    [w] and returns [result]. *)
Record KVBackupService := {
  snapshot : list Byte.byte;
  result : error
}.

Record BackupHandler := {
  hBackupService : BackupService;
  hKVBackupService : KVBackupService
}.

Record World := {
  eng : E;
  fs : FS;
  w : ResponseWriter;
  log : list event
}.

Definition emit (ev : event) : M World unit :=
  modify (fun st => {| eng := eng st; fs := fs st; w := w st; log := log st ++ [ev] |}).

(** [h.HandleHTTPError(ctx, err, w)]: the error is handed to the
    [influxdb.HTTPErrorHandler]; how that one renders it is its own. *)
Definition HandleHTTPError (err : error) : M World unit :=
  emit (EvHandleHTTPError err).

Definition svcCreateBackup (h : BackupHandler) : M World (Z * list string * error) :=
  fun st =>
    let '(r, (eng', fs')) := CreateBackup (hBackupService h) (eng st, fs st) in
    let '(id, files, err) := r in
    (r, {| eng := eng'; fs := fs'; w := w st; log := log st ++ [EvCreateBackup id files err] |}).

Definition svcFetchBackupFile (h : BackupHandler) (backupID : Z) (backupFile : string)
  : M World error :=
  fun st =>
    let '((err, w'), (eng', fs')) :=
      FetchBackupFile (hBackupService h) backupID backupFile (w st) (eng st, fs st) in
    (err, {| eng := eng'; fs := fs'; w := w';
             log := log st ++ [EvFetchBackupFile backupID backupFile err] |}).

Definition osOpenFile (name : path) : M World (errval + path) :=
  fun st =>
    let '(r, fs') := OpenFile name (fs st) in
    (r, {| eng := eng st; fs := fs'; w := w st;
           log := log st ++ [EvOpenFile name (match r with inl e => Some e | inr _ => None end)] |}).

Definition osRemoveAll (p : path) : M World error :=
  fun st =>
    let '(err, fs') := RemoveAll p (fs st) in
    (err, {| eng := eng st; fs := fs'; w := w st; log := log st ++ [EvRemoveAll p err] |}).

Definition kvBackup (h : BackupHandler) (metaFile : path) : M World error :=
  fun st =>
    let kv := hKVBackupService h in
    (result kv, {| eng := eng st; fs := appendFile metaFile (snapshot kv) (fs st); w := w st;
                   log := log st ++ [EvBackup metaFile (result kv)] |}).

(** [json.NewEncoder(w).Encode(&b)]: one [Write] of the marshalled value. *)
Definition jsonEncode (b : backup) : M World error :=
  fun st =>
    let '(err, w') := rwWrite (FrameJSON (marshalBackup b)) (w st) in
    (err, {| eng := eng st; fs := fs st; w := w'; log := log st ++ [EvEncode b err] |}).

Definition handleCreate (h : BackupHandler) : M World unit :=
  do created <- svcCreateBackup h ;;
  let '(id, files, err) := created in
  match err with
  | Some _ => HandleHTTPError err
  | None =>
      let internalBackupPath := InternalBackupPath (hBackupService h) id in
      let metaFilename := Join internalBackupPath DefaultFilename in
      do opened <- osOpenFile metaFilename ;;
      match opened with
      | inl e =>
          do rm <- osRemoveAll internalBackupPath ;;
          HandleHTTPError (Append (Some e) rm)
      | inr metaFile =>
          do err <- kvBackup h metaFile ;;
          match err with
          | Some _ =>
              do rm <- osRemoveAll internalBackupPath ;;
              HandleHTTPError (Append err rm)
          | None =>
              let files := (files ++ [DefaultFilename])%list in
              let b := {| ID := id; Files := files |} in
              do err <- jsonEncode b ;;
              match err with
              | Some _ =>
                  do rm <- osRemoveAll internalBackupPath ;;
                  HandleHTTPError (Append err rm)
              | None => ret tt
              end
          end
      end
  end.

Definition handleFetchFile (h : BackupHandler) (params : Params) : M World unit :=
  match Atoi (ByName params "backup_id") with
  | inl err => HandleHTTPError (Some err)
  | inr backupID =>
      let backupFile := ByName params "backup_file" in
      do err <- svcFetchBackupFile h backupID backupFile ;;
      match err with
      | Some _ => HandleHTTPError err
      | None => ret tt
      end
  end.

(** The events a handler adds to the log of the world it starts in. *)
Definition trace (m : M World unit) (st : World) : list event :=
  drop (length (log st)) (log (exec m st)).

End Handlers.
Arguments BackupService : clear implicits.
Arguments KVBackupService : clear implicits.
Arguments BackupHandler : clear implicits.
Arguments World : clear implicits.

End Server.

(** ** Streams and io.CopyBuffer *)
Module IO.

Definition EOF : errval := Plain (Cause "EOF" "EOF").
Definition ErrShortWrite : errval := Plain (Cause "" "short write").
Definition errInvalidWrite : errval := Plain (Cause "" "invalid write result").
Definition ENOSPC : errval := Plain (Cause "ENOSPC" "no space left on device").

(** An [io.Reader] over a finite stream: the data arrives in [chunks]
    (a [Read] never crosses a chunk boundary, so short reads and empty
    reads are covered), and once they are consumed every [Read] returns
    [final]: [EOF] at the regular end, another error for a transfer that
    broke. *)
Record Reader := {
  chunks : list (list Byte.byte);
  final : errval
}.

(** The bytes the stream carries. *)
Definition content (r : Reader) : list Byte.byte := concat (chunks r).

(** The first [n] elements and the rest, with a binary counter. *)
Fixpoint splitAt {A} (n : N) (l : list A) : list A * list A :=
  match l with
  | [] => ([], [])
  | x :: l' =>
      if (n =? 0)%N then ([], l)
      else let (a, b) := splitAt (N.pred n) l' in (x :: a, b)
  end.

(** [src.Read(buf)] with [len(buf) = n]: the bytes read and the error. *)
Definition Read (n : N) (r : Reader) : (list Byte.byte * error) * Reader :=
  match chunks r with
  | [] => (([], Some (final r)), r)
  | c :: rest =>
      let (a, b) := splitAt n c in
      ((a, None), {| chunks := match b with [] => rest | _ => b :: rest end;
                     final := final r |})
  end.

(** An [io.Writer] that keeps what it accepts. [room] is the number of
    bytes it still takes before it fails with [ENOSPC]; [None] is a sink
    without limit. A write that does not fit is short and returns the
    error, as the contract of [io.Writer] asks. *)
Record Writer := {
  accepted : list Byte.byte;
  room : option nat
}.

Definition Write (p : list Byte.byte) (w : Writer) : (Z * error) * Writer :=
  match room w with
  | None => ((Z.of_nat (length p), None), {| accepted := accepted w ++ p; room := None |})
  | Some k =>
      if (length p <=? k)%nat then
        ((Z.of_nat (length p), None),
         {| accepted := accepted w ++ p; room := Some (k - length p)%nat |})
      else
        ((Z.of_nat k, Some ENOSPC),
         {| accepted := accepted w ++ take k p; room := Some 0%nat |})
  end.

(** The loop of [io.CopyBuffer] (the generic path of [io.copyBuffer]),
    one iteration per unit of [fuel]:
<<
    for {
      nr, er := src.Read(buf)
      if nr > 0 {
        nw, ew := dst.Write(buf[0:nr])
        if nw < 0 || nr < nw { nw = 0; if ew == nil { ew = errInvalidWrite } }
        written += int64(nw)
        if ew != nil { err = ew; break }
        if nr != nw { err = ErrShortWrite; break }
      }
      if er != nil { if er != EOF { err = er }; break }
    }
    return written, err
>> *)
Fixpoint copyLoop (fuel : nat) (n : N) (dst : Writer) (src : Reader) (written : Z)
  : option ((Z * error) * Writer) :=
  match fuel with
  | O => None
  | S fuel' =>
      let '((data, er), src') := Read n src in
      let nr := Z.of_nat (length data) in
      let after_read (dst : Writer) (written : Z) :=
        match er with
        | Some e => Some ((written, if decide (e = EOF) then None else Some e), dst)
        | None => copyLoop fuel' n dst src' written
        end in
      if (0 <? nr)%Z then
        let '((nw, ew), dst') := Write data dst in
        let '(nw, ew) :=
          if (nw <? 0)%Z || (nr <? nw)%Z
          then (0%Z, match ew with None => Some errInvalidWrite | Some _ => ew end)
          else (nw, ew) in
        let written := (written + nw)%Z in
        match ew with
        | Some _ => Some ((written, ew), dst')
        | None =>
            if negb (nr =? nw)%Z then Some ((written, Some ErrShortWrite), dst')
            else after_read dst' written
        end
      else after_read dst written
  end.

(** Every iteration consumes a byte or a chunk of the stream. *)
Definition measure (r : Reader) : nat :=
  list_sum (map (fun c => S (length c)) (chunks r)).

(** [io.CopyBuffer(dst, src, buf)] with a buffer of [n] bytes. The type
    of [n] excludes the empty buffer, on which Go panics. The default of
    the last line is never taken ([copyLoop_total]). *)
Definition CopyBuffer (dst : Writer) (src : Reader) (n : positive) : (Z * error) * Writer :=
  default ((0%Z, None), dst) (copyLoop (S (measure src)) (Npos n) dst src 0).

End IO.
Export IO.

(** ** The backup client (package http, client side) *)
Module Client.

(** [time.Duration] counts nanoseconds. *)
Definition Nanosecond : Z := 1.
Definition Microsecond : Z := 1000 * Nanosecond.
Definition Millisecond : Z := 1000 * Microsecond.
Definition Second : Z := 1000 * Millisecond.
Definition Minute : Z := 60 * Second.
Definition Hour : Z := 60 * Minute.

Definition backupPath : string := "/api/v2/backup".
Definition backupIDParamName : string := "backup_id".
Definition backupFileParamName : string := "backup_file".
Definition backupFilePath : string :=
  backupPath +:+ "/:" +:+ backupIDParamName +:+ "/file/:" +:+ backupFileParamName.
Definition httpClientTimeout : Z := Hour.

Definition MethodGet : string := "GET".
Definition MethodPost : string := "POST".

Record URL := {
  Scheme : string;
  String_ : string                 (* u.String() *)
}.

Record Request := {
  Method : string;
  Target : string;
  Authorization : option string;   (* the credential of the Authorization header *)
  WithCtx : bool                   (* a caller context is attached *)
}.

Record HTTPClient := {
  Timeout : Z;
  SkipVerify : bool
}.

Record Response := {
  StatusCode : Z;
  RespBody : Reader
}.

(** [type BackupService struct { Addr, Token string; InsecureSkipVerify bool }] *)
Record BackupService := {
  Addr : string;
  Token : string;
  InsecureSkipVerify : bool
}.

(** What the client runs against: the helpers of package http that are
    outside src ([NewURL], [NewClient], [CheckError]), the library calls
    that the steps of the client do not depend on ([filepath.Join] and
    [fmt.Sprint], which are those of [Filepath] and [Fmt] in the
    scenarios and at the remote end of [Remote]; the validation of
    [http.NewRequest]; the JSON decoder), and the remote end behind
    [hc.Do]. *)
Record Env := {
  NewURL : string -> string -> errval + URL;
  NewClient : string -> bool -> HTTPClient;
  CheckError : Response -> error;
  filepathJoin : list string -> string;
  Sprint : Z -> string;
  newRequestError : string -> string -> error;
  Decode : Reader -> errval + backup;
  roundTrip : HTTPClient -> Request -> errval + Response
}.

(** [http.NewRequest(method, url, nil)]: a request without headers. *)
Definition NewRequest (env : Env) (method url : string) : errval + Request :=
  match newRequestError env method url with
  | Some e => inl e
  | None => inr {| Method := method; Target := url; Authorization := None; WithCtx := false |}
  end.

(** Modelled from the spec: [SetToken] is a helper of package http that is
    outside src; the spec says that the client applies the
    authentication credential to every outbound request, which carries
    it as a bearer credential. The credential is kept as such, without
    the scheme prefix of the header. *)
Definition SetToken (token : string) (req : Request) : Request :=
  {| Method := Method req; Target := Target req;
     Authorization := Some token; WithCtx := WithCtx req |}.

(** [req.WithContext(ctx)]: a copy of the request with the context. *)
Definition WithContext (req : Request) : Request :=
  {| Method := Method req; Target := Target req;
     Authorization := Authorization req; WithCtx := true |}.

(** [hc.Timeout = d]. *)
Definition setTimeout (hc : HTTPClient) (d : Z) : HTTPClient :=
  {| Timeout := d; SkipVerify := SkipVerify hc |}.

Definition composeBackupFilePath (env : Env) (backupID : Z) (backupFile : string) : string :=
  filepathJoin env [backupPath; Sprint env backupID; "file"; backupFile].

(** The client's side of the wire: the requests handed to [hc.Do], each
    with the client that sent it, and the sink of a fetch. *)
Record Wire := {
  sent : list (HTTPClient * Request);
  sink : Writer
}.

Definition hcDo (env : Env) (hc : HTTPClient) (req : Request) : M Wire (errval + Response) :=
  fun st => (roundTrip env hc req, {| sent := sent st ++ [(hc, req)]; sink := sink st |}).

Definition copyToSink (body : Reader) (n : positive) : M Wire error :=
  fun st =>
    let '((_, err), dst) := CopyBuffer (sink st) body n in
    (err, {| sent := sent st; sink := dst |}).

Definition CreateBackup (env : Env) (s : BackupService) : M Wire (Z * list string * error) :=
  match NewURL env (Addr s) backupPath with
  | inl err => ret (0, [], Some err)
  | inr u =>
      match NewRequest env MethodPost (String_ u) with
      | inl err => ret (0, [], Some err)
      | inr req =>
          let req := SetToken (Token s) req in
          let req := WithContext req in
          let hc := NewClient env (Scheme u) (InsecureSkipVerify s) in
          let hc := setTimeout hc httpClientTimeout in
          do resp <- hcDo env hc req ;;
          match resp with
          | inl err => ret (0, [], Some err)
          | inr resp =>
              match CheckError env resp with
              | Some err => ret (0, [], Some err)
              | None =>
                  match Decode env (RespBody resp) with
                  | inl err => ret (0, [], Some err)
                  | inr b => ret (ID b, Files b, None)
                  end
              end
          end
      end
  end.

Definition FetchBackupFile (env : Env) (s : BackupService)
    (backupID : Z) (backupFile : string) : M Wire error :=
  match NewURL env (Addr s) (composeBackupFilePath env backupID backupFile) with
  | inl err => ret (Some err)
  | inr u =>
      match NewRequest env MethodGet (String_ u) with
      | inl err => ret (Some err)
      | inr req =>
          let req := SetToken (Token s) req in
          let hc := NewClient env (Scheme u) (InsecureSkipVerify s) in
          let hc := setTimeout hc httpClientTimeout in
          do resp <- hcDo env hc req ;;
          match resp with
          | inl err => ret (Some err)
          | inr resp =>
              match CheckError env resp with
              | Some err => ret (Some err)
              | None =>
                  do err <- copyToSink (RespBody resp) (1024 * 1024)%positive ;;
                  match err with
                  | Some _ => ret err
                  | None => ret None
                  end
              end
          end
      end
  end.

(** The client that [CreateBackup] and [FetchBackupFile] set up for the
    URL [u]. *)
Definition backupClient (env : Env) (s : BackupService) (u : URL) : HTTPClient :=
  setTimeout (NewClient env (Scheme u) (InsecureSkipVerify s)) httpClientTimeout.

(** The requests a call hands to [hc.Do]. *)
Definition sentBy {A} (m : M Wire A) (st : Wire) : list (HTTPClient * Request) :=
  drop (length (sent st)) (sent (exec m st)).

(** The request carries the token of [s] and goes out with the one-hour
    timeout. *)
Definition authorized (s : BackupService) (x : HTTPClient * Request) : Prop :=
  Authorization x.2 = Some (Token s) ∧ Timeout x.1 = Hour.

(** [influxdb.ENotFound], and an error that has it among its causes. *)
Definition ENotFound : string := "not found".

Definition isNotFound (e : errval) : bool :=
  existsb (fun c => (Code c =? ENotFound)%string) (Errors (Some e)).

End Client.

(** ** Scenarios: a concrete engine, remote end and store *)
Module Scenarios.

(** *** The server side *)
Import Server.

#[global] Instance upstreamBolt : Bolt := {| DefaultFilename := "influxd.bolt" |}.

Definition decimal (n : Z) : string :=
  match n with
  | Z0 => "0"
  | _ => DecimalString.NilZero.string_of_int (Z.to_int n)
  end.

Definition backupDir (id : Z) : path := ["engine"; "backups"; decimal id].

Definition ErrNotFound : errval := Plain (Cause "not found" "backup file not found").
Definition ErrEngineClosed : errval := Plain (Cause "internal error" "engine is closed").
Definition ErrSnapshot : errval := Plain (Cause "internal error" "snapshot failed").
Definition ErrBrokenPipe : errval := Plain (Cause "EPIPE" "broken pipe").

(** Stage the shard files of a backup below its directory. *)
Definition stage (dir : path) (shards : list string) (fs : FS) : FS :=
  {| nodes := foldr (fun f m => <[Join dir f := File []]> m) (<[dir := Dir]> (nodes fs)) shards;
     locked := locked fs |}.

(** An engine that numbers its backups from its counter, stages the given
    shard files, and serves the files of a backup. [fail] makes every
    allocation fail. *)
Definition engine (shards : list string) (fail : error) : BackupService Z :=
  {| CreateBackup := fun '(last, fs) =>
       match fail with
       | Some _ => ((0, [], fail), (last, fs))
       | None => ((last + 1, shards, None), (last + 1, stage (backupDir (last + 1)) shards fs))
       end;
     FetchBackupFile := fun backupID backupFile rw '(last, fs) =>
       match nodes fs !! Join (backupDir backupID) backupFile with
       | Some (File data) => (rwWrite (FrameBytes data) rw, (last, fs))
       | _ => ((Some ErrNotFound, rw), (last, fs))
       end;
     InternalBackupPath := backupDir |}.

Definition kvOK : KVBackupService := {| snapshot := [x01; x02]; result := None |}.
Definition kvFailing : KVBackupService := {| snapshot := [x01]; result := Some ErrSnapshot |}.

Definition emptyDisk : FS :=
  {| nodes := {[ [] := Dir; ["engine"] := Dir; ["engine"; "backups"] := Dir ]};
     locked := ∅ |}.

(** A disk on which the metadata file of backup 1 is there already and
    cannot be touched. *)
Definition lockedDisk : FS :=
  {| nodes := <[Join (backupDir 1) DefaultFilename := File []]> (nodes emptyDisk);
     locked := {[ Join (backupDir 1) DefaultFilename ]} |}.

Definition healthy : ResponseWriter := {| rw_body := []; rw_fail := None |}.
Definition hungUp : ResponseWriter := {| rw_body := []; rw_fail := Some ErrBrokenPipe |}.

Definition world (last : Z) (disk : FS) (rw : ResponseWriter) : World Z :=
  {| eng := last; fs := disk; w := rw; log := [] |}.

Definition handler (shards : list string) (fail : error) (kv : KVBackupService)
  : BackupHandler Z :=
  {| hBackupService := engine shards fail; hKVBackupService := kv |}.

Definition freshWorld : World Z := world 0 emptyDisk healthy.

(** The usual engine: one shard file, backups numbered from 1. *)
Definition plainHandler : BackupHandler Z := handler ["000000001.s1"] None kvOK.

(** The metadata snapshot fails. *)
Definition snapshotFailsHandler : BackupHandler Z := handler ["000000001.s1"] None kvFailing.

(** The engine cannot allocate a backup. *)
Definition closedHandler : BackupHandler Z := handler [] (Some ErrEngineClosed) kvOK.

(** An engine that names a staged file like the metadata file. *)
Definition clashHandler : BackupHandler Z := handler ["influxd.bolt"] None kvOK.

(** A world whose engine numbers its backups from 0. *)
Definition zeroWorld : World Z := world (-1) emptyDisk healthy.

Definition badParams : Params := [("backup_id", "1x"); ("backup_file", "influxd.bolt")].

(** *** The client side *)
Import Client.

Definition ErrNoAddr : errval := Plain (Cause "invalid" "empty address").
Definition ErrRemote : errval := Plain (Cause "internal error" "unexpected status").
Definition ErrFileNotFound : errval := Plain (Cause ENotFound "backup file not found").

Definition metaURL : string := "http://localhost:9999/api/v2/backup/1/file/influxd.bolt".

(** A remote end with backup 1, whose metadata file of three bytes comes
    in two reads; every other file is not found. *)
Definition remote (hc : HTTPClient) (req : Request) : errval + Response :=
  if (Target req =? metaURL)%string
  then inr {| StatusCode := 200; RespBody := {| chunks := [[x01; x02]; [x03]]; final := EOF |} |}
  else inr {| StatusCode := 404; RespBody := {| chunks := []; final := EOF |} |}.

Definition testEnv : Env :=
  {| NewURL := fun addr p =>
       if (addr =? "")%string then inl ErrNoAddr
       else inr {| Scheme := "http"; String_ := addr +:+ p |};
     NewClient := fun _ skip => {| Timeout := 0; SkipVerify := skip |};
     CheckError := fun resp =>
       if (StatusCode resp / 100 =? 2)%Z then None
       else if (StatusCode resp =? 404)%Z then Some ErrFileNotFound
       else Some ErrRemote;
     filepathJoin := Filepath.Join;
     Sprint := decimal;
     newRequestError := fun _ _ => None;
     Decode := fun _ => inr {| ID := 1; Files := ["000000001.s1"; "influxd.bolt"] |};
     roundTrip := remote |}.

Definition testService : BackupService :=
  {| Addr := "http://localhost:9999"; Token := "s3cr3t"; InsecureSkipVerify := false |}.

Definition emptyWire : Wire := {| sent := []; sink := {| accepted := []; room := None |} |}.

(** *** The organization config store *)
Import OrgConfig.

Definition mapStore : OrganizationConfigStore (gmap string OrganizationConfig) :=
  {| FindOrCreate := fun orgID m =>
       match m !! orgID with
       | Some c => ((Some c, None), m)
       | None =>
           let c := {| OrganizationID := orgID; LogViewer := {| Columns := [] |} |} in
           ((Some c, None), <[orgID := c]> m)
       end;
     Update := fun c m => (None, <[OrganizationID c := c]> m) |}.

Definition timeColumn : LogViewerColumn :=
  {| clm_Name := "time"; clm_Position := 0;
     clm_Encodings := [{| enc_Type := "visibility"; enc_Value := "hidden"; enc_Name := "" |}] |}.

Definition severityColumn : LogViewerColumn :=
  {| clm_Name := "severity"; clm_Position := 1;
     clm_Encodings := [{| enc_Type := "visibility"; enc_Value := "visible"; enc_Name := "" |};
                       {| enc_Type := "label"; enc_Value := "icon"; enc_Name := "" |};
                       {| enc_Type := "label"; enc_Value := "text"; enc_Name := "" |}] |}.

(** A decoder that knows three bodies. *)
Definition testDecode (body : string) : errval + LogViewerConfig :=
  if (body =? "good")%string then inr {| Columns := [timeColumn; severityColumn] |}
  else if (body =? "twice")%string then inr {| Columns := [timeColumn; timeColumn] |}
  else inl (Errorf "unexpected end of JSON input").

Definition testOrgService : Service (gmap string OrganizationConfig) :=
  {| Store := mapStore; jsonDecode := testDecode |}.

Definition emptyOrgWorld : OrgConfig.World (gmap string OrganizationConfig) :=
  {| store := ∅; calls := []; out := [] |}.

Definition request (body : string) : OrgConfig.Request :=
  {| ctxOrganization := Some "default"; Body := body |}.

End Scenarios.

(** ** The read handlers of the organization config *)
Module OrgConfigRead.
Import OrgConfig.

(** [organizationConfigResponse] and [newOrganizationConfigResponse]. *)
Record organizationConfigResponse := {
  oc_Self : string;
  oc_OrganizationConfig : OrganizationConfig
}.

Definition newOrganizationConfigResponse (config : OrganizationConfig)
  : organizationConfigResponse :=
  {| oc_Self := "/chronograf/v1/org_config"; oc_OrganizationConfig := config |}.

(** What [OrganizationConfig] writes to its response writer. *)
Inductive orgResponse :=
| OrgRespError (status : Z) (msg : string)                    (* Error(w, status, msg, logger) *)
| OrgRespJSON (status : Z) (res : organizationConfigResponse). (* encodeJSON(w, status, res, logger) *)

Section Handlers.
Context {S : Type}.

(** [OrganizationConfig] retrieves the organization-wide config settings.
    The response it writes is the result of the run. *)
Definition OrganizationConfig (s : Service S) (r : Request) : M (World S) orgResponse :=
  match hasOrganizationContext r with
  | None => ret (OrgRespError StatusBadRequest "Organization not found on context")
  | Some orgID =>
      do found <- callFindOrCreate s orgID ;;
      let '(config, err) := found in
      match err with
      | Some e => ret (OrgRespError StatusBadRequest (Error e))
      | None =>
          match config with
          | None => ret (OrgRespError StatusBadRequest "Organization configuration object was nil")
          | Some config => ret (OrgRespJSON StatusOK (newOrganizationConfigResponse config))
          end
      end
  end.

(** [LogViewerOrganizationConfig] retrieves the log viewer UI section of
    the organization config. *)
Definition LogViewerOrganizationConfig (s : Service S) (r : Request) : M (World S) unit :=
  match hasOrganizationContext r with
  | None => respond (RespError StatusBadRequest "Organization not found on context")
  | Some orgID =>
      do found <- callFindOrCreate s orgID ;;
      let '(config, err) := found in
      match err with
      | Some e => respond (RespError StatusBadRequest (Error e))
      | None =>
          match config with
          | None => respond (RespError StatusBadRequest
                               "Organization configuration object was nil")
          | Some config => respond (RespJSON StatusOK (newLogViewerConfigResponse (LogViewer config)))
          end
      end
  end.

(** The calls and responses a handler adds. *)
Definition newCalls {A} (m : M (World S) A) (st : World S) : list storeCall :=
  drop (length (calls st)) (calls (exec m st)).

Definition newOut {A} (m : M (World S) A) (st : World S) : list response :=
  drop (length (out st)) (out (exec m st)).

(** The three ways through [ReplaceLogViewerOrganizationConfig], by the
    world a run leaves: refused before the store is asked; the store asked
    and no config found; the config found and the update tried. *)
Inductive replaceOutcome (s : Service S) (r : Request) (st : World S) : World S → Prop :=
| ReplaceRefused resp :
    isErrorResponse resp = true →
    replaceOutcome s r st {| store := store st; calls := calls st; out := out st ++ [resp] |}
| ReplaceNotFound orgID cfg found e m1 resp :
    hasOrganizationContext r = Some orgID →
    jsonDecode s (Body r) = inr cfg →
    validLogViewerConfig cfg = None →
    FindOrCreate (Store s) orgID (store st) = ((found, e), m1) →
    (is_Some e ∨ found = None) →
    isErrorResponse resp = true →
    replaceOutcome s r st
      {| store := m1; calls := calls st ++ [CallFindOrCreate orgID]; out := out st ++ [resp] |}
| ReplaceUpdated orgID cfg found m1 e m2 :
    hasOrganizationContext r = Some orgID →
    jsonDecode s (Body r) = inr cfg →
    validLogViewerConfig cfg = None →
    FindOrCreate (Store s) orgID (store st) = ((Some found, None), m1) →
    Update (Store s) {| OrganizationID := OrganizationID found; LogViewer := cfg |} m1 = (e, m2) →
    replaceOutcome s r st
      {| store := m2;
         calls := calls st ++ [CallFindOrCreate orgID;
                               CallUpdate {| OrganizationID := OrganizationID found;
                                             LogViewer := cfg |}];
         out := out st ++ [match e with
                           | Some err => RespUnknownError err
                           | None => RespJSON StatusOK (newLogViewerConfigResponse cfg)
                           end] |}.

(** The contract of a store, as far as the handlers rely on it: the config
    found for an organization is that organization's, and a config that
    [Update] accepted is the one found afterwards. *)
Definition findsOwn (store : OrganizationConfigStore S) : Prop :=
  ∀ orgID m c e m', FindOrCreate store orgID m = ((Some c, e), m') → OrganizationID c = orgID.

Definition readsItsWrites (store : OrganizationConfigStore S) : Prop :=
  ∀ c m m', Update store c m = (None, m') →
            FindOrCreate store (OrganizationID c) m' = ((Some c, None), m').

End Handlers.

Definition isUpdate (c : storeCall) : bool :=
  match c with CallUpdate _ => true | CallFindOrCreate _ => false end.

End OrgConfigRead.

(** ** What the comment above [validLogViewerConfig] asks for *)
Module OrgConfigSpec.
Import OrgConfig.

(** The encodings of a column that set its visibility. *)
Definition visibilityEncodings (clm : LogViewerColumn) : list ColumnEncoding :=
  filter (fun e => enc_Type e = "visibility") (clm_Encodings clm).

(** How many encodings of a column have the value [v]. *)
Definition countValue (v : string) (clm : LogViewerColumn) : nat :=
  length (filter (fun e => enc_Value e = v) (clm_Encodings clm)).

(** A visibility is "visible" or "hidden". *)
Definition visibilityOK (e : ColumnEncoding) : Prop :=
  enc_Value e = "visible" ∨ enc_Value e = "hidden".

(** One visibility encoding, which says "visible" or "hidden"; and in the
    column named "severity" one or two format encodings, "icon" and "text",
    each at most once. *)
Definition validColumn (clm : LogViewerColumn) : Prop :=
  length (visibilityEncodings clm) = 1%nat
  ∧ Forall visibilityOK (visibilityEncodings clm)
  ∧ (clm_Name clm = "severity" →
     (1 ≤ countValue "icon" clm + countValue "text" clm)%nat
     ∧ (countValue "icon" clm ≤ 1)%nat ∧ (countValue "text" clm ≤ 1)%nat).

(** At least one column, no two columns with the same name or the same
    position, and every column valid. *)
Definition wellFormed (cfg : LogViewerConfig) : Prop :=
  Columns cfg ≠ []
  ∧ NoDup (clm_Name <$> Columns cfg)
  ∧ NoDup (clm_Position <$> Columns cfg)
  ∧ Forall validColumn (Columns cfg).

End OrgConfigSpec.

(** ** fmt.Sprint of an [int] *)
Module Fmt.

(** [fmt.Sprint(n)] for an [int] is [strconv.Itoa(n)]: the decimal digits
    without leading zeros, after a minus sign for a negative number. *)
Definition FormatInt (n : Z) : string :=
  DecimalString.NilEmpty.string_of_int (Z.to_int n).

End Fmt.

(** ** What a copy comes to *)
Module CopySpec.

(** The result of copying the stream [src] to [dst], told from the bytes of
    the stream, its end and the room of the sink: everything is written
    and the end of the stream decides the error, or the sink is full after
    [room] bytes. *)
Definition copyOutcome (dst : Writer) (src : Reader) (written : Z) : (Z * error) * Writer :=
  let data := content src in
  let ended := if decide (final src = EOF) then None else Some (final src) in
  match room dst with
  | None =>
      ((written + Z.of_nat (length data), ended),
       {| accepted := accepted dst ++ data; room := None |})
  | Some k =>
      if (length data <=? k)%nat then
        ((written + Z.of_nat (length data), ended),
         {| accepted := accepted dst ++ data; room := Some (k - length data)%nat |})
      else
        ((written + Z.of_nat k, Some ENOSPC),
         {| accepted := accepted dst ++ take k data; room := Some 0%nat |})
  end.

End CopySpec.

(** ** More scenarios *)
Module MoreScenarios.
Import OrgConfig OrgConfigRead.

(** A store that keeps the log viewer section of every organization under
    the ID of the organization. *)
Definition keyedStore : OrganizationConfigStore (gmap string LogViewerConfig) :=
  {| FindOrCreate := fun orgID m =>
       match m !! orgID with
       | Some lv => ((Some {| OrganizationID := orgID; LogViewer := lv |}, None), m)
       | None =>
           ((Some {| OrganizationID := orgID; LogViewer := {| Columns := [] |} |}, None),
            <[orgID := {| Columns := [] |}]> m)
       end;
     Update := fun c m => (None, <[OrganizationID c := LogViewer c]> m) |}.

Definition keyedService : Service (gmap string LogViewerConfig) :=
  {| Store := keyedStore; jsonDecode := Scenarios.testDecode |}.

Definition keyedWorld : World (gmap string LogViewerConfig) :=
  {| store := ∅; calls := []; out := [] |}.

Definition goodConfig : LogViewerConfig :=
  {| Columns := [Scenarios.timeColumn; Scenarios.severityColumn] |}.

Definition goodConfigSwapped : LogViewerConfig :=
  {| Columns := [Scenarios.severityColumn; Scenarios.timeColumn] |}.

Definition goodParams : Server.Params := [("backup_id", "1"); ("backup_file", "influxd.bolt")].

(** A remote end whose transfer of the metadata file breaks after two
    bytes. *)
Definition ErrReset : errval := Plain (Cause "ECONNRESET" "connection reset by peer").

Definition brokenRemote (hc : Client.HTTPClient) (req : Client.Request)
  : errval + Client.Response :=
  inr {| Client.StatusCode := 200;
         Client.RespBody := {| chunks := [[x01; x02]]; final := ErrReset |} |}.

Definition brokenEnv : Client.Env :=
  {| Client.NewURL := Client.NewURL Scenarios.testEnv;
     Client.NewClient := Client.NewClient Scenarios.testEnv;
     Client.CheckError := Client.CheckError Scenarios.testEnv;
     Client.filepathJoin := Client.filepathJoin Scenarios.testEnv;
     Client.Sprint := Client.Sprint Scenarios.testEnv;
     Client.newRequestError := Client.newRequestError Scenarios.testEnv;
     Client.Decode := Client.Decode Scenarios.testEnv;
     Client.roundTrip := brokenRemote |}.

End MoreScenarios.

(** ** The remote end of a fetch *)
Module Router.

(** Modelled from the spec: the router behind [h.HandlerFunc] is outside
    src; section 6 has the fetch addressed by a path template of the form
    [.../{backup_id}/file/{file_name}]. A path matches a pattern segment
    by segment: a segment of the pattern that starts with a colon takes
    one non-empty segment of the path under its name, any other segment
    must be the same in both. *)
Fixpoint matchSegments (pattern p : list string) : option Server.Params :=
  match pattern, p with
  | [], [] => Some []
  | pat :: pattern', seg :: p' =>
      match pat with
      | String ":"%char name =>
          if (seg =? "")%string then None
          else match matchSegments pattern' p' with
               | Some params => Some ((name, seg) :: params)
               | None => None
               end
      | _ => if (pat =? seg)%string then matchSegments pattern' p' else None
      end
  | _, _ => None
  end.

Definition matchPath (pattern p : string) : option Server.Params :=
  matchSegments (Filepath.segments pattern) (Filepath.segments p).

End Router.

Module Remote.

(** The backup directories of the remote end: keyed by the ID of the
    backup, each with its files by name. *)
Definition Backups : Type := gmap Z (gmap string (list Byte.byte)).

(** The pair [(backupID, fileName)] resolves to an existing file in an
    existing backup directory. *)
Definition lookupBackupFile (backups : Backups) (backupID : Z) (fileName : string)
  : option (list Byte.byte) :=
  match backups !! backupID with
  | Some files => files !! fileName
  | None => None
  end.

Definition ErrNotFound : errval := Plain (Cause Client.ENotFound "backup file not found").
Definition ErrInternal : errval := Plain (Cause "internal error" "unexpected status").
Definition ErrNoSuchHost : errval := Plain (Cause "internal error" "no such host").
Definition ErrNoAllocation : errval := Plain (Cause "internal error" "the engine allocates no backup").

(** Modelled from the spec: the engine behind [influxdb.BackupService] is
    outside src. Section 4.2: it resolves [(backupID, fileName)] to a
    file inside the corresponding backup directory, fails with a
    not-found condition if the directory or the file does not exist (no
    partial or fuzzy matching), and on success streams the bytes of the
    file to the sink. The allocation of backups plays no part in a fetch
    and always fails here. *)
Definition retrieval : Server.BackupService Backups :=
  {| Server.CreateBackup := fun st => ((0, [], Some ErrNoAllocation), st);
     Server.FetchBackupFile := fun backupID backupFile rw '(backups, fs) =>
       match lookupBackupFile backups backupID backupFile with
       | Some data => (Server.rwWrite (Server.FrameBytes data) rw, (backups, fs))
       | None => ((Some ErrNotFound, rw), (backups, fs))
       end;
     Server.InternalBackupPath := fun backupID => ["backups"; Fmt.FormatInt backupID] |}.

Definition fetchHandler : Server.BackupHandler Backups :=
  {| Server.hBackupService := retrieval;
     Server.hKVBackupService := {| Server.snapshot := []; Server.result := None |} |}.

Definition startWorld (backups : Backups) : Server.World Backups :=
  {| Server.eng := backups;
     Server.fs := {| nodes := ∅; locked := ∅ |};
     Server.w := {| Server.rw_body := []; Server.rw_fail := None |};
     Server.log := [] |}.

Definition frameBytes (f : Server.Frame) : list Byte.byte :=
  match f with
  | Server.FrameBytes bs => bs
  | Server.FrameJSON _ => []
  end.

(** Modelled from the spec: [HandleHTTPError] hands the error to the
    [influxdb.HTTPErrorHandler], which is outside src. Section 7: a
    not-found condition is a client-correctable error, distinct from all
    failures of the server, and every failure reaches the caller with
    enough detail to tell the categories apart. The status of the
    response carries the category: 404 for not-found, 500 for everything
    else, 200 when no error was reported and what the handler wrote is
    the body. *)
Definition respond (st : Server.World Backups) : Client.Response :=
  match Server.reported (Server.log st) with
  | [] =>
      {| Client.StatusCode := 200;
         Client.RespBody := {| chunks := map frameBytes (Server.rw_body (Server.w st));
                               final := EOF |} |}
  | Some e :: _ =>
      {| Client.StatusCode := if Client.isNotFound e then 404 else 500;
         Client.RespBody := {| chunks := []; final := EOF |} |}
  | None :: _ =>
      {| Client.StatusCode := 500; Client.RespBody := {| chunks := []; final := EOF |} |}
  end.

(** Modelled from the spec: [CheckError] is a helper of package http that
    is outside src; it reads the category of the failure back from the
    response (section 7). *)
Definition checkError (resp : Client.Response) : error :=
  if (Client.StatusCode resp / 100 =? 2)%Z then None
  else if (Client.StatusCode resp =? 404)%Z then Some ErrNotFound
  else Some ErrInternal.

Fixpoint stripPrefix (pre s : string) : option string :=
  match pre, s with
  | EmptyString, _ => Some s
  | String a pre', String b s' => if Ascii.eqb a b then stripPrefix pre' s' else None
  | String _ _, EmptyString => None
  end.

(** The remote end at the address [addr]: the path of a GET request is
    matched against [backupFilePath], the route that [NewBackupHandler]
    registers for [handleFetchFile]; the handler runs with the segments
    as parameters, and what it wrote or reported is the response. A path
    that matches no route is not found. *)
Definition serve (addr : string) (backups : Backups)
    (hc : Client.HTTPClient) (req : Client.Request) : errval + Client.Response :=
  match stripPrefix addr (Client.Target req) with
  | None => inl ErrNoSuchHost
  | Some p =>
      if (Client.Method req =? Client.MethodGet)%string then
        match Router.matchPath Client.backupFilePath p with
        | Some params =>
            inr (respond (exec (Server.handleFetchFile fetchHandler params) (startWorld backups)))
        | None => inr {| Client.StatusCode := 404;
                         Client.RespBody := {| chunks := []; final := EOF |} |}
        end
      else inr {| Client.StatusCode := 405;
                  Client.RespBody := {| chunks := []; final := EOF |} |}
  end.

(** Modelled from the spec: [NewURL] and [NewClient] are helpers of
    package http that are outside src. The URL of a request is the
    address of the service followed by the path (section 6: the fetch is
    addressed by its path), and the client starts without a timeout.
    [filepath.Join] and [fmt.Sprint] are those of [Filepath] and [Fmt];
    the decoder of a manifest plays no part in a fetch. *)
Definition env (addr : string) (backups : Backups) : Client.Env :=
  {| Client.NewURL := fun a p => inr {| Client.Scheme := "http"; Client.String_ := a +:+ p |};
     Client.NewClient := fun _ skip => {| Client.Timeout := 0; Client.SkipVerify := skip |};
     Client.CheckError := checkError;
     Client.filepathJoin := Filepath.Join;
     Client.Sprint := Fmt.FormatInt;
     Client.newRequestError := fun _ _ => None;
     Client.Decode := fun _ => inl ErrInternal;
     Client.roundTrip := serve addr backups |}.

(** The request of a fetch for [(backupID, backupFile)] when the name
    of the file is one segment of the path. *)
Definition fetchRequest (s : Client.BackupService) (backupID : Z) (backupFile : string)
  : Client.Request :=
  {| Client.Method := Client.MethodGet;
     Client.Target := Client.Addr s +:+ String.concat "/"
                        [""; "api"; "v2"; "backup"; Fmt.FormatInt backupID; "file"; backupFile];
     Client.Authorization := Some (Client.Token s);
     Client.WithCtx := false |}.

(** A remote end with one backup: backup 1 with its metadata file of three
    bytes. *)
Definition oneBackup : Backups :=
  {[ 1%Z := {[ "influxd.bolt" := [x01; x02; x03] ]} ]}.

End Remote.

(* ===================================================================== *)
(** * Part II: properties                                                 *)
(* ===================================================================== *)

Arguments RemoveAll : simpl never.
Arguments OpenFile : simpl never.
Arguments appendFile : simpl never.
Arguments Append : simpl never.
Arguments marshalBackup : simpl never.
Arguments CopyBuffer : simpl never.

(** ** multierr *)

Lemma Append_nil_r (err : error) : Append err None = err.
Proof. by destruct err. Qed.

Lemma Errors_Append (l r : error) : Errors (Append l r) = Errors l ++ Errors r.
Proof.
  destruct l as [l|], r as [r|]; simpl; try done.
  by rewrite app_nil_r.
Qed.

Lemma Append_is_Some (e : errval) (r : error) : is_Some (Append (Some e) r).
Proof. destruct r; simpl; eauto. Qed.

(** ** The log viewer validation and its handler *)
Section OrgConfigProperties.
Import OrgConfig.
Context {S : Type}.
Implicit Types (s : Service S) (r : Request) (st : World S).

Lemma respond_exec (resp : response) st :
  exec (respond resp) st = {| store := store st; calls := calls st; out := out st ++ [resp] |}.
Proof. reflexivity. Qed.

(** C10. When the body does not decode, or decodes to a log viewer config
    that [validLogViewerConfig] rejects, [ReplaceLogViewerOrganizationConfig]
    answers with an error response and has made no call on the store:
    neither [FindOrCreate] nor [Update] ran, the stored organization
    config is what it was. *)
Theorem ReplaceLogViewer_rejects_before_store s r st :
  (∃ e, jsonDecode s (Body r) = inl e)
  ∨ (∃ cfg e, jsonDecode s (Body r) = inr cfg ∧ validLogViewerConfig cfg = Some e) →
  let st' := exec (ReplaceLogViewerOrganizationConfig s r) st in
  store st' = store st
  ∧ calls st' = calls st
  ∧ ∃ resp, out st' = out st ++ [resp] ∧ isErrorResponse resp = true.
Proof.
  intros Hbad st'. subst st'. unfold ReplaceLogViewerOrganizationConfig.
  destruct (hasOrganizationContext r) as [orgID|].
  - destruct Hbad as [[e He] | (cfg & e & Hd & Hv)].
    + rewrite He, respond_exec. simpl. eauto.
    + rewrite Hd, Hv, respond_exec. simpl. eauto.
  - rewrite respond_exec. simpl. eauto.
Qed.

End OrgConfigProperties.

(** ** Counting names *)

Lemma occurrences_snoc (name : string) (l : list string) :
  occurrences name (l ++ [name]) = S (occurrences name l).
Proof.
  unfold occurrences. rewrite filter_app, length_app. cbn.
  rewrite decide_True by done. cbn. lia.
Qed.

Lemma occurrences_not_elem (name : string) (l : list string) :
  name ∉ l → occurrences name l = 0%nat.
Proof.
  unfold occurrences. induction l as [|f l IH]; [done|].
  intros Hnot. apply not_elem_of_cons in Hnot as [Hne Hl].
  rewrite filter_cons, decide_False by done. by apply IH.
Qed.

(** ** The file system *)

Lemma RemoveAll_absent (p : path) (fs : FS) :
  (RemoveAll p fs).1 = None → absent p (RemoveAll p fs).2.
Proof.
  unfold RemoveAll. cbn [fst snd]. case_decide as Hkeep; [|done].
  intros _ k Hk. simpl. apply map_lookup_filter_None. right.
  intros x _ [Hnot | Hex]; simpl in *.
  - by apply Hnot.
  - rewrite Hkeep in Hex. destruct Hex as (l & Hl & _). set_solver.
Qed.

Lemma RemoveAll_outside (p k : path) (fs : FS) :
  ¬ p `prefix_of` k → nodes (RemoveAll p fs).2 !! k = nodes fs !! k.
Proof.
  intros Hk. unfold RemoveAll. cbn [fst snd nodes].
  destruct (nodes fs !! k) as [x|] eqn:Hx.
  - apply map_lookup_filter_Some. split; [done|]. by left.
  - apply map_lookup_filter_None. by left.
Qed.

Lemma RemoveAll_error (p : path) (fs : FS) (e : errval) :
  (RemoveAll p fs).1 = Some e → e = EACCES ∧ ∃ l, l ∈ locked fs ∧ p `prefix_of` l ∧ is_Some (nodes fs !! l).
Proof.
  unfold RemoveAll. cbn [fst snd]. case_decide as Hkeep; [done|].
  intros [= <-]. split; [done|].
  apply set_choose_L in Hkeep as [l Hl].
  apply elem_of_filter in Hl as [[? ?] ?]. eauto.
Qed.

(** ** The backup handler *)
Section ServerProperties.
Import Server.
Context {E : Type} `{Bolt}.
Implicit Types (h : BackupHandler E) (st : World E) (evs : list event).

Lemma trace_of_log (m : M (World E) unit) st evs :
  log (exec m st) = log st ++ evs → trace m st = evs.
Proof. intros Hlog. unfold trace. by rewrite Hlog, drop_app_length. Qed.

(** Unfold one run of [handleCreate] into the calls it makes. *)
Ltac run_handleCreate :=
  unfold handleCreate, exec, bind, svcCreateBackup, osOpenFile, kvBackup, jsonEncode,
    osRemoveAll, HandleHTTPError, emit, modify, ret, rwWrite.

(** Membership of an event in an explicit trace, by cases. *)
Ltac event_in Hin :=
  repeat (apply elem_of_cons in Hin as [Hin|Hin];
          [try discriminate Hin; try (injection Hin as -> || injection Hin as ? ->)|]);
  try (by apply elem_of_nil in Hin).

(** *** The five ways through [handleCreate] *)
Section Runs.
Variables (h : BackupHandler E) (st : World E).
Variables (id : Z) (files : list string) (eng1 : E) (fs1 : FS).

Let dir := InternalBackupPath (hBackupService h) id.
Let metaFilename := Join dir DefaultFilename.
Let kv := hKVBackupService h.
Let b := {| ID := id; Files := files ++ [DefaultFilename] |}.

Lemma run_allocation_fails e :
  CreateBackup (hBackupService h) (eng st, fs st) = ((id, files, Some e), (eng1, fs1)) →
  exec (handleCreate h) st =
    {| eng := eng1; fs := fs1; w := w st;
       log := log st ++ [EvCreateBackup id files (Some e); EvHandleHTTPError (Some e)] |}.
Proof.
  intros Hcreate. run_handleCreate. rewrite Hcreate. cbn. by rewrite <- app_assoc.
Qed.

Hypothesis Hcreate :
  CreateBackup (hBackupService h) (eng st, fs st) = ((id, files, None), (eng1, fs1)).

Lemma run_open_fails eo fs2 :
  OpenFile metaFilename fs1 = (inl eo, fs2) →
  exec (handleCreate h) st =
    {| eng := eng1; fs := (RemoveAll dir fs2).2; w := w st;
       log := log st ++ [EvCreateBackup id files None;
                         EvOpenFile metaFilename (Some eo);
                         EvRemoveAll dir (RemoveAll dir fs2).1;
                         EvHandleHTTPError (Append (Some eo) (RemoveAll dir fs2).1)] |}.
Proof.
  intros Hopen. run_handleCreate. rewrite Hcreate. cbn.
  fold dir metaFilename. rewrite Hopen. cbn.
  destruct (RemoveAll dir fs2) as [rm fs3]. cbn. by rewrite <- !app_assoc.
Qed.

Variables (metaFile : path) (fs2 : FS).
Hypothesis Hopen : OpenFile metaFilename fs1 = (inr metaFile, fs2).

Let fs3 := appendFile metaFile (snapshot kv) fs2.

Lemma run_snapshot_fails ek :
  result kv = Some ek →
  exec (handleCreate h) st =
    {| eng := eng1; fs := (RemoveAll dir fs3).2; w := w st;
       log := log st ++ [EvCreateBackup id files None;
                         EvOpenFile metaFilename None;
                         EvBackup metaFile (Some ek);
                         EvRemoveAll dir (RemoveAll dir fs3).1;
                         EvHandleHTTPError (Append (Some ek) (RemoveAll dir fs3).1)] |}.
Proof.
  intros Hkv. run_handleCreate. rewrite Hcreate. cbn.
  fold dir metaFilename. rewrite Hopen. cbn. fold kv. rewrite Hkv. cbn. fold fs3.
  destruct (RemoveAll dir fs3) as [rm fs4]. cbn. by rewrite <- !app_assoc.
Qed.

Hypothesis Hkv : result kv = None.

Lemma run_encode_fails ew :
  rw_fail (w st) = Some ew →
  exec (handleCreate h) st =
    {| eng := eng1; fs := (RemoveAll dir fs3).2; w := w st;
       log := log st ++ [EvCreateBackup id files None;
                         EvOpenFile metaFilename None;
                         EvBackup metaFile None;
                         EvEncode b (Some ew);
                         EvRemoveAll dir (RemoveAll dir fs3).1;
                         EvHandleHTTPError (Append (Some ew) (RemoveAll dir fs3).1)] |}.
Proof.
  intros Hw. run_handleCreate. rewrite Hcreate. cbn.
  fold dir metaFilename. rewrite Hopen. cbn. fold kv. rewrite Hkv. cbn. rewrite Hw. cbn.
  fold fs3. destruct (RemoveAll dir fs3) as [rm fs4]. cbn.
  destruct st as [? ? [? ?] ?]. cbn in *. subst. by rewrite <- !app_assoc.
Qed.

Lemma run_succeeds :
  rw_fail (w st) = None →
  exec (handleCreate h) st =
    {| eng := eng1; fs := fs3;
       w := {| rw_body := rw_body (w st) ++ [FrameJSON (marshalBackup b)]; rw_fail := None |};
       log := log st ++ [EvCreateBackup id files None;
                         EvOpenFile metaFilename None;
                         EvBackup metaFile None;
                         EvEncode b None] |}.
Proof.
  intros Hw. run_handleCreate. rewrite Hcreate. cbn.
  fold dir metaFilename. rewrite Hopen. cbn. fold kv. rewrite Hkv. cbn. rewrite Hw. cbn.
  by rewrite <- !app_assoc.
Qed.

End Runs.

(** A run that makes no report went through every step. *)
Lemma handleCreate_success h st :
  reported (trace (handleCreate h) st) = [] →
  ∃ id files eng1 fs1 metaFile fs2,
    CreateBackup (hBackupService h) (eng st, fs st) = ((id, files, None), (eng1, fs1))
    ∧ OpenFile (Join (InternalBackupPath (hBackupService h) id) DefaultFilename) fs1
      = (inr metaFile, fs2)
    ∧ result (hKVBackupService h) = None
    ∧ rw_fail (w st) = None.
Proof.
  destruct (CreateBackup (hBackupService h) (eng st, fs st))
    as [[[id files] [e|]] [eng1 fs1]] eqn:Hcreate.
  { erewrite trace_of_log by (by erewrite run_allocation_fails). done. }
  destruct (OpenFile (Join (InternalBackupPath (hBackupService h) id) DefaultFilename) fs1)
    as [[eo|metaFile] fs2] eqn:Hopen.
  { erewrite trace_of_log by (by erewrite run_open_fails). done. }
  destruct (result (hKVBackupService h)) as [ek|] eqn:Hkv.
  { erewrite trace_of_log by (by erewrite run_snapshot_fails). done. }
  destruct (rw_fail (w st)) as [ew|] eqn:Hw.
  { erewrite trace_of_log by (by erewrite run_encode_fails). done. }
  intros _. by exists id, files, eng1, fs1, metaFile, fs2.
Qed.

(** C6. When [BackupService.CreateBackup] fails, [handleCreate] hands that
    error to [HandleHTTPError] and does nothing else: the world it leaves
    is the one the engine left, with the two calls added to the log, so
    no file was opened and no directory removed. *)
Theorem handleCreate_allocation_failure h st id files e eng' fs' :
  CreateBackup (hBackupService h) (eng st, fs st) = ((id, files, Some e), (eng', fs')) →
  let st' := exec (handleCreate h) st in
  let evs := trace (handleCreate h) st in
  evs = [EvCreateBackup id files (Some e); EvHandleHTTPError (Some e)]
  ∧ reported evs = [Some e]
  ∧ Forall (fun ev => isRollback ev = false ∧ isOpenFile ev = false) evs
  ∧ eng st' = eng' ∧ fs st' = fs' ∧ w st' = w st.
Proof.
  intros Hcreate st' evs. subst st' evs.
  erewrite trace_of_log by (by erewrite run_allocation_fails).
  erewrite run_allocation_fails by done. cbn.
  split_and!; try done. by repeat constructor.
Qed.

(** C1. Whenever opening the metadata file, the metadata snapshot or the
    encoding of the manifest returns an error [e], [handleCreate] ends
    with [os.RemoveAll] on the backup directory followed by one call of
    [HandleHTTPError], and that is the only removal and the only report.
    The reported error is [multierr.Append e rm] for the result [rm] of
    the removal: its causes are those of [e] followed by those of [rm].
    When the removal succeeded the report is [e] itself and nothing is
    left at or below the backup directory. *)
Theorem handleCreate_rollback h st e :
  let st' := exec (handleCreate h) st in
  let evs := trace (handleCreate h) st in
  failsAfterAllocation e evs →
  ∃ id files pre rm,
    let dir := InternalBackupPath (hBackupService h) id in
    evs = EvCreateBackup id files None
            :: pre ++ [EvRemoveAll dir rm; EvHandleHTTPError (Append (Some e) rm)]
    ∧ Forall (fun ev => isRollback ev = false) pre
    ∧ reported evs = [Append (Some e) rm]
    ∧ Errors (Append (Some e) rm) = Errors (Some e) ++ Errors rm
    ∧ (rm = None → Append (Some e) rm = Some e ∧ absent dir (fs st')).
Proof.
  intros st' evs. subst st' evs.
  destruct (CreateBackup (hBackupService h) (eng st, fs st))
    as [[[id files] [e0|]] [eng1 fs1]] eqn:Hcreate.
  { erewrite trace_of_log by (by erewrite run_allocation_fails).
    intros [(? & Hin) | [(? & Hin) | (? & Hin)]]; by event_in Hin. }
  set (dir := InternalBackupPath (hBackupService h) id).
  destruct (OpenFile (Join dir DefaultFilename) fs1) as [[eo|metaFile] fs2] eqn:Hopen.
  { erewrite trace_of_log by (by erewrite run_open_fails).
    erewrite run_open_fails by done. fold dir.
    intros Hfail. assert (e = eo) as ->.
    { destruct Hfail as [(? & Hin) | [(? & Hin) | (? & Hin)]]; by event_in Hin. }
    exists id, files, [EvOpenFile (Join dir DefaultFilename) (Some eo)], (RemoveAll dir fs2).1.
    split_and!; [done|by repeat constructor|done|apply (Errors_Append (Some _))|].
    intros Hrm. split; [by rewrite Hrm|]. by apply RemoveAll_absent. }
  destruct (result (hKVBackupService h)) as [ek|] eqn:Hkv.
  { erewrite trace_of_log by (by erewrite run_snapshot_fails).
    erewrite run_snapshot_fails by done. fold dir.
    intros Hfail. assert (e = ek) as ->.
    { destruct Hfail as [(? & Hin) | [(? & Hin) | (? & Hin)]]; by event_in Hin. }
    eexists id, files, [EvOpenFile (Join dir DefaultFilename) None; EvBackup metaFile (Some ek)], _.
    split_and!; [done|by repeat constructor|done|apply (Errors_Append (Some _))|].
    intros Hrm. split; [by rewrite Hrm|]. by apply RemoveAll_absent. }
  destruct (rw_fail (w st)) as [ew|] eqn:Hw.
  { erewrite trace_of_log by (by erewrite run_encode_fails).
    erewrite run_encode_fails by done. fold dir.
    intros Hfail. assert (e = ew) as ->.
    { destruct Hfail as [(? & Hin) | [(? & Hin) | (? & Hin)]]; by event_in Hin. }
    eexists id, files, [EvOpenFile (Join dir DefaultFilename) None; EvBackup metaFile None;
                        EvEncode _ (Some ew)], _.
    split_and!; [done|by repeat constructor|done|apply (Errors_Append (Some _))|].
    intros Hrm. split; [by rewrite Hrm|]. by apply RemoveAll_absent. }
  erewrite trace_of_log by (by erewrite run_succeeds).
  intros [(? & Hin) | [(? & Hin) | (? & Hin)]]; by event_in Hin.
Qed.

(** C2, as the code has it. A run of [handleCreate] that reports no error
    encodes the manifest [b] whose [Files] are the shard file names of
    the engine followed by [bolt.DefaultFilename]: the list is not empty,
    its last element is the reserved name, and the reserved name is
    listed once more than among the shard names, so exactly once when
    the engine did not use that name itself. *)
Theorem handleCreate_manifest_files h st :
  let st' := exec (handleCreate h) st in
  let evs := trace (handleCreate h) st in
  reported evs = [] →
  ∃ id shards b,
    (CreateBackup (hBackupService h) (eng st, fs st)).1 = (id, shards, None)
    ∧ last evs = Some (EvEncode b None)
    ∧ rw_body (w st') = rw_body (w st) ++ [FrameJSON (marshalBackup b)]
    ∧ ID b = id
    ∧ Files b = shards ++ [DefaultFilename]
    ∧ Files b ≠ []
    ∧ last (Files b) = Some DefaultFilename
    ∧ occurrences DefaultFilename (Files b) = S (occurrences DefaultFilename shards)
    ∧ (DefaultFilename ∉ shards → occurrences DefaultFilename (Files b) = 1%nat).
Proof.
  intros st' evs Hok. subst st' evs.
  destruct (handleCreate_success _ _ Hok)
    as (id & shards & eng1 & fs1 & metaFile & fs2 & Hcreate & Hopen & Hkv & Hw).
  exists id, shards, {| ID := id; Files := shards ++ [DefaultFilename] |}.
  erewrite trace_of_log by (by erewrite run_succeeds).
  erewrite run_succeeds by done. rewrite Hcreate. cbn -[occurrences].
  split_and!; try done.
  - by destruct shards.
  - apply last_snoc.
  - apply occurrences_snoc.
  - intros Hnot. by rewrite occurrences_snoc, occurrences_not_elem.
Qed.

(** C7, as the code has it. A run of [handleCreate] that reports no error
    writes one JSON object to the response. Its field [files] is always
    there and lists the manifest's files; its field [id] is there exactly
    when the backup ID is not zero, which [omitempty] drops. For a
    non-zero ID the object is [{ id, files }]. *)
Theorem handleCreate_manifest_json h st :
  let st' := exec (handleCreate h) st in
  reported (trace (handleCreate h) st) = [] →
  ∃ id shards j,
    (CreateBackup (hBackupService h) (eng st, fs st)).1 = (id, shards, None)
    ∧ rw_body (w st') = rw_body (w st) ++ [FrameJSON j]
    ∧ field "files" j = Some (JArr (map JStr (shards ++ [DefaultFilename])))
    ∧ field "id" j = (if decide (id = 0) then None else Some (JNum id))
    ∧ fieldNames j = (if decide (id = 0) then [] else ["id"]) ++ ["files"]
    ∧ (id ≠ 0 → j = JObj [("id", JNum id);
                          ("files", JArr (map JStr (shards ++ [DefaultFilename])))]).
Proof.
  intros st' Hok. subst st'.
  destruct (handleCreate_success _ _ Hok)
    as (id & shards & eng1 & fs1 & metaFile & fs2 & Hcreate & Hopen & Hkv & Hw).
  exists id, shards, (marshalBackup {| ID := id; Files := shards ++ [DefaultFilename] |}).
  erewrite run_succeeds by done. rewrite Hcreate. cbn.
  unfold marshalBackup. cbn.
  replace (length (shards ++ [DefaultFilename]) =? 0)%nat with false
    by (symmetry; apply Nat.eqb_neq; rewrite length_app; cbn; lia).
  case_decide as Hid.
  - subst id. cbn. split_and!; done.
  - apply Z.eqb_neq in Hid as Hid'. rewrite Hid'. cbn. split_and!; done.
Qed.

(** [strconv.Atoi] rejects what is not a decimal integer. *)
Lemma digits_not_all (s : string) (acc : Z) : allDigits s = false → digits acc s = None.
Proof.
  revert acc. induction s as [|c s IH]; intros acc; cbn; [done|].
  destruct (isDigit c); cbn; [apply IH | done].
Qed.

Lemma Atoi_not_decimal (s : string) :
  isDecimalInteger s = false → Atoi s = inl (syntaxError s).
Proof.
  unfold isDecimalInteger, Atoi.
  set (split := match s with
                | String "-"%char rest => (true, rest)
                | String "+"%char rest => (false, rest)
                | _ => (false, s)
                end).
  set (body := match s with
               | String "-"%char rest => rest
               | String "+"%char rest => rest
               | _ => s
               end).
  assert (split.2 = body) as Hbody.
  { subst split body. destruct s as [|c rest]; [done|].
    destruct c as [[] [] [] [] [] [] [] []]; done. }
  destruct split as [neg body']. cbn in Hbody. subst body'.
  destruct body as [|c rest] eqn:Hb; [done|].
  intros Hnot. by rewrite (digits_not_all _ 0 Hnot).
Qed.

(** Whatever makes [strconv.Atoi] fail, the fetch stops there. *)
Lemma handleFetchFile_parse_error h (params : Params) st e :
  Atoi (ByName params "backup_id") = inl e →
  exec (handleFetchFile h params) st =
    {| eng := eng st; fs := fs st; w := w st; log := log st ++ [EvHandleHTTPError (Some e)] |}.
Proof. intros Hatoi. unfold handleFetchFile. by rewrite Hatoi. Qed.

(** C9. When the [backup_id] segment is not a decimal integer,
    [handleFetchFile] hands the parse error of [strconv.Atoi] to
    [HandleHTTPError] and does nothing else: [FetchBackupFile] is not
    called, and the response writer, the file system and the engine are
    what they were. *)
Theorem handleFetchFile_bad_id h (params : Params) st :
  isDecimalInteger (ByName params "backup_id") = false →
  let st' := exec (handleFetchFile h params) st in
  let evs := trace (handleFetchFile h params) st in
  ∃ e, Atoi (ByName params "backup_id") = inl e
       ∧ evs = [EvHandleHTTPError (Some e)]
       ∧ Forall (fun ev => isFetch ev = false) evs
       ∧ w st' = w st ∧ fs st' = fs st ∧ eng st' = eng st.
Proof.
  intros Hbad st' evs. subst st' evs.
  exists (syntaxError (ByName params "backup_id")).
  pose proof (Atoi_not_decimal _ Hbad) as Hatoi.
  pose proof (handleFetchFile_parse_error h params st _ Hatoi) as Hrun.
  rewrite (trace_of_log _ _ _ (f_equal log Hrun)), Hrun. cbn.
  split_and!; try done. by repeat constructor.
Qed.

End ServerProperties.

(** ** Streams *)

Lemma splitAt_app {A} (n : N) (l a b : list A) : splitAt n l = (a, b) → l = a ++ b.
Proof.
  revert n a b. induction l as [|x l IH]; intros n a b; cbn.
  - by intros [= <- <-].
  - destruct (n =? 0)%N; [by intros [= <- <-]|].
    destruct (splitAt (N.pred n) l) as [a' b'] eqn:Hs. intros [= <- <-].
    cbn. f_equal. by apply (IH (N.pred n)).
Qed.

Lemma splitAt_progress {A} (n : N) (x : A) (l a b : list A) :
  (0 < n)%N → splitAt n (x :: l) = (a, b) → a ≠ [].
Proof.
  intros Hn. cbn. destruct (n =? 0)%N eqn:Hz; [apply N.eqb_eq in Hz; lia|].
  destruct (splitAt (N.pred n) l). by intros [= <- <-].
Qed.

Lemma Write_spec (p : list Byte.byte) (w w' : Writer) (nw : Z) (ew : error) :
  Write p w = ((nw, ew), w') →
  ∃ k, (k ≤ length p)%nat ∧ nw = Z.of_nat k ∧ accepted w' = accepted w ++ take k p
       ∧ (ew = None → k = length p).
Proof.
  unfold Write. destruct (room w) as [k|].
  - destruct (length p <=? k)%nat eqn:Hle.
    + intros [= <- <- <-]. exists (length p). cbn. by rewrite firstn_all.
    + apply Nat.leb_gt in Hle. intros [= <- <- <-]. exists k. cbn.
      split_and!; [lia|done|done|done].
  - intros [= <- <- <-]. exists (length p). cbn. by rewrite firstn_all.
Qed.

Lemma Write_unlimited (p : list Byte.byte) (w : Writer) :
  room w = None →
  Write p w = ((Z.of_nat (length p), None), {| accepted := accepted w ++ p; room := None |}).
Proof. unfold Write. by intros ->. Qed.

Lemma content_cons (c : list Byte.byte) (rest : list (list Byte.byte)) (e : errval) :
  content {| chunks := c :: rest; final := e |} = c ++ content {| chunks := rest; final := e |}.
Proof. reflexivity. Qed.

(** What one [Read] leaves in the stream. *)
Lemma Read_content (n : N) (src src' : Reader) (data : list Byte.byte) (er : error) :
  Read n src = ((data, er), src') →
  content src = data ++ content src' ∧ final src' = final src
  ∧ (er = None ∨ (er = Some (final src) ∧ data = [] ∧ chunks src = [])).
Proof.
  unfold Read. destruct src as [[|c rest] fin]; cbn.
  - intros [= <- <- <-]. split_and!; [done|done|by right].
  - destruct (splitAt n c) as [a b] eqn:Hs. intros [= <- <- <-].
    apply splitAt_app in Hs as ->. unfold content. cbn.
    split_and!; [|done|by left].
    destruct b; cbn; by rewrite <- ?app_assoc, ?app_nil_r.
Qed.

Lemma Read_measure (n : N) (src src' : Reader) (data : list Byte.byte) :
  (0 < n)%N → Read n src = ((data, None), src') → (measure src' < measure src)%nat.
Proof.
  intros Hn. unfold Read, measure. destruct src as [[|c rest] fin]; cbn; [done|].
  destruct (splitAt n c) as [a b] eqn:Hs. intros [= <- <-]. cbn.
  destruct b as [|y b]; cbn; [lia|].
  destruct c as [|x c]; [by apply splitAt_app in Hs; destruct a|].
  pose proof (splitAt_progress _ _ _ _ _ Hn Hs) as Ha.
  apply splitAt_app in Hs. apply (f_equal length) in Hs.
  rewrite length_app in Hs. cbn in Hs. destruct a; [done|]. cbn in Hs. cbn [length]. lia.
Qed.

(** The loop copies a prefix of the stream, and all of it when it
    returns no error; the stream then ended with [EOF]. *)
Lemma copyLoop_spec (fuel : nat) (n : N) (dst dst' : Writer) (src : Reader)
    (written written' : Z) (err : error) :
  copyLoop fuel n dst src written = Some ((written', err), dst') →
  (∃ k, accepted dst' = accepted dst ++ take k (content src))
  ∧ (err = None →
     accepted dst' = accepted dst ++ content src
     ∧ final src = EOF
     ∧ written' = (written + Z.of_nat (length (content src)))%Z).
Proof.
  revert dst src written. induction fuel as [|fuel IH]; intros dst src written; [done|].
  cbn [copyLoop].
  destruct (Read n src) as [[data er] src'] eqn:Hread.
  apply Read_content in Hread as (Hcontent & Hfinal & Her).
  assert (∀ d wr,
    match er with
    | Some e => Some (wr, if decide (e = EOF) then None else Some e, d)
    | None => copyLoop fuel n d src' wr
    end = Some (written', err, dst') →
    accepted d = accepted dst ++ data →
    wr = (written + Z.of_nat (length data))%Z →
    (∃ k, accepted dst' = accepted dst ++ take k (content src))
    ∧ (err = None →
       accepted dst' = accepted dst ++ content src
       ∧ final src = EOF
       ∧ written' = (written + Z.of_nat (length (content src)))%Z)) as Hafter.
  { intros d wr Hrun Hd Hwr. destruct Her as [-> | (-> & -> & Hnil)].
    - apply IH in Hrun as [[k Hk] Hall]. rewrite Hcontent. split.
      + exists (length data + k)%nat.
        by rewrite Hk, Hd, take_app_add, <- app_assoc.
      + intros Herr. destruct (Hall Herr) as (Ha & Hf & Hw).
        rewrite Ha, Hd, <- app_assoc, length_app, <- Hfinal. split_and!; [done|done|lia].
    - injection Hrun as <- <- <-.
      assert (content src = []) as Hnone by (unfold content; by rewrite Hnil).
      rewrite Hnone. rewrite app_nil_r in Hd. rewrite app_nil_r. split.
      + exists 0%nat. cbn. by rewrite app_nil_r.
      + case_decide as Heof; [|done]. intros _. cbn in Hwr.
        split_and!; [done|done|cbn; lia]. }
  destruct (0 <? Z.of_nat (length data))%Z eqn:Hnr.
  - destruct (Write data dst) as [[nw ew] dst1] eqn:Hwrite.
    apply Write_spec in Hwrite as (k & Hk & -> & Hacc & Hfull).
    replace ((Z.of_nat k <? 0)%Z || (Z.of_nat (length data) <? Z.of_nat k)%Z) with false
      by (symmetry; apply orb_false_iff; split; [apply Z.ltb_ge|apply Z.ltb_ge]; lia).
    destruct ew as [e|].
    + intros [= <- <- <-]. split; [|done].
      exists k. by rewrite Hacc, Hcontent, take_app_le.
    + specialize (Hfull eq_refl). subst k. rewrite Z.eqb_refl. cbn [negb].
      rewrite firstn_all in Hacc. intros Hrun. by apply (Hafter dst1 _ Hrun).
  - apply Z.ltb_ge in Hnr. assert (data = []) as -> by (destruct data; [done|cbn in Hnr; lia]).
    intros Hrun. apply (Hafter dst _ Hrun); [by rewrite app_nil_r | cbn; lia].
Qed.

(** With a buffer that is not empty the fuel of [CopyBuffer] is enough. *)
Lemma copyLoop_total (fuel : nat) (n : N) (dst : Writer) (src : Reader) (written : Z) :
  (0 < n)%N → (measure src < fuel)%nat → is_Some (copyLoop fuel n dst src written).
Proof.
  intros Hn. revert dst src written.
  induction fuel as [|fuel IH]; intros dst src written Hfuel; [lia|].
  cbn [copyLoop].
  destruct (Read n src) as [[data er] src'] eqn:Hread.
  assert (∀ d wr, is_Some
    match er with
    | Some e => Some (wr, if decide (e = EOF) then None else Some e, d)
    | None => copyLoop fuel n d src' wr
    end) as Hafter.
  { intros d wr. destruct er as [e|]; [done|].
    apply IH. pose proof (Read_measure _ _ _ _ Hn Hread). lia. }
  destruct (0 <? Z.of_nat (length data))%Z; [|apply Hafter].
  destruct (Write data dst) as [[nw ew] dst1].
  destruct ((nw <? 0)%Z || (Z.of_nat (length data) <? nw)%Z).
  - by destruct ew.
  - destruct ew; [done|]. destruct (negb _); [done|apply Hafter].
Qed.

Lemma CopyBuffer_spec (dst dst' : Writer) (src : Reader) (n : positive) (written : Z) (err : error) :
  CopyBuffer dst src n = ((written, err), dst') →
  (∃ k, accepted dst' = accepted dst ++ take k (content src))
  ∧ (err = None →
     accepted dst' = accepted dst ++ content src
     ∧ final src = EOF
     ∧ written = Z.of_nat (length (content src))).
Proof.
  unfold CopyBuffer.
  destruct (copyLoop_total (S (measure src)) (Npos n) dst src 0) as [r Hr]; [lia|lia|].
  rewrite Hr. cbn. intros ->. by apply copyLoop_spec in Hr.
Qed.

(** A sink without limit takes every stream that ends with [EOF]. *)
Lemma copyLoop_complete (fuel : nat) (n : N) (dst : Writer) (src : Reader) (written : Z) :
  (0 < n)%N → (measure src < fuel)%nat → room dst = None → final src = EOF →
  copyLoop fuel n dst src written =
    Some ((written + Z.of_nat (length (content src)), None)%Z,
          {| accepted := accepted dst ++ content src; room := None |}).
Proof.
  intros Hn. revert dst src written.
  induction fuel as [|fuel IH]; intros dst src written Hfuel Hroom Heof; [lia|].
  cbn [copyLoop].
  destruct (Read n src) as [[data er] src'] eqn:Hread.
  pose proof (Read_content _ _ _ _ _ Hread) as (Hcontent & Hfinal & Her).
  destruct Her as [-> | (-> & -> & Hnil)].
  - pose proof (Read_measure _ _ _ _ Hn Hread) as Hlt.
    destruct (0 <? Z.of_nat (length data))%Z eqn:Hnr.
    + rewrite (Write_unlimited _ _ Hroom).
      replace ((Z.of_nat (length data) <? 0)%Z
               || (Z.of_nat (length data) <? Z.of_nat (length data))%Z) with false
        by (symmetry; apply orb_false_iff; split; apply Z.ltb_ge; lia).
      rewrite Z.eqb_refl. cbn [negb].
      rewrite IH; [|lia|done|by rewrite Hfinal]. cbn.
      rewrite Hcontent, length_app, <- app_assoc. do 3 f_equal. lia.
    + apply Z.ltb_ge in Hnr.
      assert (data = []) as -> by (destruct data; [done|cbn in Hnr; lia]).
      rewrite IH; [|lia|done|by rewrite Hfinal]. by rewrite Hcontent.
  - assert (content src = []) as -> by (unfold content; by rewrite Hnil).
    cbn. rewrite decide_True by done. rewrite app_nil_r, Z.add_0_r.
    by destruct dst as [acc rm]; cbn in *; subst rm.
Qed.

Lemma CopyBuffer_complete (dst : Writer) (src : Reader) (n : positive) :
  room dst = None → final src = EOF →
  CopyBuffer dst src n =
    ((Z.of_nat (length (content src)), None),
     {| accepted := accepted dst ++ content src; room := None |}).
Proof.
  intros Hroom Heof. unfold CopyBuffer.
  rewrite copyLoop_complete by (done || lia). done.
Qed.

(** ** The backup client *)
Section ClientProperties.
Import Client.
Variable env : Env.
Implicit Types (s : BackupService) (st : Wire).

Lemma sentBy_of_sent {A} (m : M Wire A) st l :
  sent (exec m st) = sent st ++ l → sentBy m st = l.
Proof. intros Hs. unfold sentBy. by rewrite Hs, drop_app_length. Qed.

Lemma sentBy_ret {A} (a : A) st : sentBy (ret a) st = [].
Proof. apply sentBy_of_sent. by rewrite app_nil_r. Qed.

(** C8. [CreateBackup] and [FetchBackupFile] hand at most one request to
    [hc.Do] each; that request carries the token of the service, and the
    client that sends it has its timeout set to [httpClientTimeout], one
    hour (3600 * 10^9 nanoseconds). *)
Theorem client_requests_token_and_timeout s st :
  Hour = 3600 * 1000000000
  ∧ httpClientTimeout = Hour
  ∧ Forall (authorized s) (sentBy (CreateBackup env s) st)
  ∧ (length (sentBy (CreateBackup env s) st) ≤ 1)%nat
  ∧ ∀ backupID backupFile,
      Forall (authorized s) (sentBy (FetchBackupFile env s backupID backupFile) st)
      ∧ (length (sentBy (FetchBackupFile env s backupID backupFile) st) ≤ 1)%nat.
Proof.
  split; [done|]. split; [done|].
  assert (∀ A (k : errval + Response → M Wire A) hc req,
            (∀ r st', sent (exec (k r) st') = sent st') →
            Timeout hc = Hour → Authorization req = Some (Token s) →
            Forall (authorized s) (sentBy (do resp <- hcDo env hc req ;; k resp) st)
            ∧ (length (sentBy (do resp <- hcDo env hc req ;; k resp) st) ≤ 1)%nat) as Hone.
  { intros A k hc req Hk Hhc Hreq.
    rewrite (sentBy_of_sent _ _ [(hc, req)]); [split; [by repeat constructor|cbn; lia]|].
    unfold exec, bind, hcDo in *. cbn. apply Hk. }
  assert (∀ A (a : A), Forall (authorized s) (sentBy (ret a) st)
                       ∧ (length (sentBy (ret a) st) ≤ 1)%nat) as Hnone.
  { intros A a. rewrite sentBy_ret. split; [constructor|cbn; lia]. }
  split_and!.
  - unfold CreateBackup.
    destruct (NewURL env (Addr s) backupPath) as [e|u]; [apply Hnone|].
    unfold NewRequest. destruct (newRequestError env MethodPost (String_ u)); [apply Hnone|].
    apply Hone; [|done|done].
    intros [e|resp] st'; [done|].
    destruct (CheckError env resp); [done|]. by destruct (Decode env (RespBody resp)).
  - unfold CreateBackup.
    destruct (NewURL env (Addr s) backupPath) as [e|u]; [apply Hnone|].
    unfold NewRequest. destruct (newRequestError env MethodPost (String_ u)); [apply Hnone|].
    apply Hone; [|done|done].
    intros [e|resp] st'; [done|].
    destruct (CheckError env resp); [done|]. by destruct (Decode env (RespBody resp)).
  - intros backupID backupFile. unfold FetchBackupFile.
    destruct (NewURL env (Addr s) _) as [e|u]; [apply Hnone|].
    unfold NewRequest. destruct (newRequestError env MethodGet (String_ u)); [apply Hnone|].
    apply Hone; [|done|done].
    intros [e|resp] st'; [done|].
    destruct (CheckError env resp); [done|].
    unfold exec, bind, copyToSink.
    destruct (CopyBuffer (sink st') (RespBody resp) (1024 * 1024)) as [[n [e|]] dst]; done.
Qed.

Lemma FetchBackupFile_answered s backupID backupFile st u req resp :
  NewURL env (Addr s) (composeBackupFilePath env backupID backupFile) = inr u →
  NewRequest env MethodGet (String_ u) = inr req →
  roundTrip env (backupClient env s u) (SetToken (Token s) req) = inr resp →
  FetchBackupFile env s backupID backupFile st =
    match CheckError env resp with
    | Some err =>
        (Some err, {| sent := sent st ++ [(backupClient env s u, SetToken (Token s) req)];
                      sink := sink st |})
    | None =>
        let r := CopyBuffer (sink st) (RespBody resp) (1024 * 1024) in
        (r.1.2, {| sent := sent st ++ [(backupClient env s u, SetToken (Token s) req)];
                   sink := r.2 |})
    end.
Proof.
  intros Hu Hreq Hresp. unfold FetchBackupFile. rewrite Hu, Hreq.
  unfold bind, hcDo. fold (backupClient env s u). rewrite Hresp.
  destruct (CheckError env resp) as [err|]; [done|].
  unfold copyToSink. cbn.
  destruct (CopyBuffer (sink st) (RespBody resp) (1024 * 1024)) as [[n [e|]] dst]; done.
Qed.

(** C4. When [FetchBackupFile] returns no error for the pair
    [(backupID, backupFile)], it has sent one request: a GET, with the
    token of the service, for the URL that [NewURL] makes of the address
    of the service and the path [composeBackupFilePath] of that very pair.
    The remote end has answered that request with a response that
    [CheckError] accepts, the body of the response has ended with [EOF],
    and the sink has received exactly the bytes of that body, in order,
    after what it held before: whatever the size of the file (the empty
    one too) and however the body arrives in reads. The 1 MiB of the
    buffer play no part: a copy with a buffer of any other size that
    returns no error leaves the same bytes in the sink. *)
Theorem FetchBackupFile_exact_bytes s backupID backupFile st :
  (FetchBackupFile env s backupID backupFile st).1 = None →
  let st' := (FetchBackupFile env s backupID backupFile st).2 in
  ∃ u resp,
    let hc := backupClient env s u in
    let req := {| Method := MethodGet; Target := String_ u;
                  Authorization := Some (Token s); WithCtx := false |} in
    NewURL env (Addr s) (composeBackupFilePath env backupID backupFile) = inr u
    ∧ sent st' = sent st ++ [(hc, req)]
    ∧ roundTrip env hc req = inr resp
    ∧ CheckError env resp = None
    ∧ final (RespBody resp) = EOF
    ∧ accepted (sink st') = accepted (sink st) ++ content (RespBody resp)
    ∧ ∀ n written dst,
        CopyBuffer (sink st) (RespBody resp) n = ((written, None), dst) →
        accepted dst = accepted (sink st').
Proof.
  destruct (NewURL env (Addr s) (composeBackupFilePath env backupID backupFile))
    as [e|u] eqn:Hu.
  { unfold FetchBackupFile. by rewrite Hu. }
  destruct (NewRequest env MethodGet (String_ u)) as [e|req] eqn:Hreq.
  { unfold FetchBackupFile. by rewrite Hu, Hreq. }
  destruct (roundTrip env (backupClient env s u) (SetToken (Token s) req)) as [e|resp] eqn:Hresp.
  { unfold FetchBackupFile. rewrite Hu, Hreq. unfold bind, hcDo.
    fold (backupClient env s u). by rewrite Hresp. }
  rewrite (FetchBackupFile_answered _ _ _ _ _ _ _ Hu Hreq Hresp).
  destruct (CheckError env resp) as [e|] eqn:Hcheck; [done|].
  destruct (CopyBuffer (sink st) (RespBody resp) (1024 * 1024)) as [[n err] dst] eqn:Hcopy.
  cbn. intros ->.
  apply CopyBuffer_spec in Hcopy as [_ Hall]. destruct (Hall eq_refl) as (Hacc & Heof & _).
  unfold NewRequest in Hreq.
  destruct (newRequestError env MethodGet (String_ u)); [done|].
  injection Hreq as <-. unfold SetToken in *. cbn [Method Target WithCtx] in *.
  exists u, resp. split_and!; try done.
  intros n' written dst' Hcopy'.
  apply CopyBuffer_spec in Hcopy' as [_ Hall']. destruct (Hall' eq_refl) as (Hacc' & _).
  by rewrite Hacc', Hacc.
Qed.

(** A fetch writes to the sink only after [CheckError] has accepted the
    response: every failure before that leaves the sink as it was. *)
Lemma FetchBackupFile_no_early_write s backupID backupFile st :
  let r := FetchBackupFile env s backupID backupFile st in
  sink r.2 ≠ sink st →
  ∃ hc req resp, sent r.2 = sent st ++ [(hc, req)]
                 ∧ roundTrip env hc req = inr resp ∧ CheckError env resp = None.
Proof.
  intros r. subst r.
  destruct (NewURL env (Addr s) (composeBackupFilePath env backupID backupFile))
    as [e|u] eqn:Hu.
  { unfold FetchBackupFile. by rewrite Hu. }
  destruct (NewRequest env MethodGet (String_ u)) as [e|req] eqn:Hreq.
  { unfold FetchBackupFile. by rewrite Hu, Hreq. }
  destruct (roundTrip env (backupClient env s u) (SetToken (Token s) req)) as [e|resp] eqn:Hresp.
  { unfold FetchBackupFile. rewrite Hu, Hreq. unfold bind, hcDo.
    fold (backupClient env s u). by rewrite Hresp. }
  rewrite (FetchBackupFile_answered _ _ _ _ _ _ _ Hu Hreq Hresp).
  destruct (CheckError env resp) as [e|] eqn:Hcheck; [done|].
  intros _. by exists (backupClient env s u), (SetToken (Token s) req), resp.
Qed.

(** A remote end that serves the file and a sink without limit make the
    fetch succeed. *)
Lemma FetchBackupFile_served s backupID backupFile st u req resp :
  NewURL env (Addr s) (composeBackupFilePath env backupID backupFile) = inr u →
  NewRequest env MethodGet (String_ u) = inr req →
  roundTrip env (backupClient env s u) (SetToken (Token s) req) = inr resp →
  CheckError env resp = None →
  final (RespBody resp) = EOF →
  room (sink st) = None →
  FetchBackupFile env s backupID backupFile st =
    (None, {| sent := sent st ++ [(backupClient env s u, SetToken (Token s) req)];
              sink := {| accepted := accepted (sink st) ++ content (RespBody resp);
                         room := None |} |}).
Proof.
  intros Hu Hreq Hresp Hcheck Heof Hroom.
  rewrite (FetchBackupFile_answered _ _ _ _ _ _ _ Hu Hreq Hresp), Hcheck.
  by rewrite CopyBuffer_complete.
Qed.

End ClientProperties.

(** ** The scenarios, run *)
Section ScenarioRuns.
Import Server Scenarios.

Example run_ok :
  let st' := exec (handleCreate (handler ["000000001.s1"] None kvOK)) (world 0 emptyDisk healthy) in
  rw_body (w st') = [FrameJSON (JObj [("id", JNum 1);
                                      ("files", JArr [JStr "000000001.s1"; JStr "influxd.bolt"])])]
  ∧ nodes (fs st') !! ["engine"; "backups"; "1"; "influxd.bolt"]
    = Some (File [x01; x02])
  ∧ reported (log st') = [].
Proof. vm_compute. done. Qed.

Example run_snapshot_fails_and_rolls_back :
  let st' := exec (handleCreate (handler ["000000001.s1"] None kvFailing))
               (world 0 emptyDisk healthy) in
  log st' = [EvCreateBackup 1 ["000000001.s1"] None;
             EvOpenFile ["engine"; "backups"; "1"; "influxd.bolt"] None;
             EvBackup ["engine"; "backups"; "1"; "influxd.bolt"] (Some ErrSnapshot);
             EvRemoveAll ["engine"; "backups"; "1"] None;
             EvHandleHTTPError (Some ErrSnapshot)]
  ∧ nodes (fs st') = nodes emptyDisk.
Proof. vm_compute. done. Qed.

Example run_rollback_fails_too :
  let st' := exec (handleCreate (handler ["000000001.s1"] None kvOK))
               (world 0 lockedDisk healthy) in
  reported (log st') = [Some (Multi [Cause "EACCES" "permission denied";
                                     Cause "EACCES" "permission denied"])]
  ∧ nodes (fs st') !! ["engine"; "backups"; "1"; "influxd.bolt"] = Some (File [])
  ∧ nodes (fs st') !! ["engine"; "backups"; "1"] = Some Dir
  ∧ nodes (fs st') !! ["engine"; "backups"; "1"; "000000001.s1"] = None.
Proof. vm_compute. done. Qed.

End ScenarioRuns.

(** ** The properties at the scenarios *)

(** The snapshot fails in [snapshotFailsHandler]: the backup directory is
    removed and the snapshot error reported. *)
Lemma handleCreate_rollback_witness :
  Server.failsAfterAllocation Scenarios.ErrSnapshot
    (Server.trace (Server.handleCreate Scenarios.snapshotFailsHandler) Scenarios.freshWorld)
  ∧ ∃ id files pre rm,
      let dir := Server.InternalBackupPath (Server.hBackupService Scenarios.snapshotFailsHandler) id in
      Server.trace (Server.handleCreate Scenarios.snapshotFailsHandler) Scenarios.freshWorld
      = Server.EvCreateBackup id files None
          :: pre ++ [Server.EvRemoveAll dir rm;
                     Server.EvHandleHTTPError (Append (Some Scenarios.ErrSnapshot) rm)]
      ∧ Forall (fun ev => Server.isRollback ev = false) pre
      ∧ Server.reported
          (Server.trace (Server.handleCreate Scenarios.snapshotFailsHandler) Scenarios.freshWorld)
        = [Append (Some Scenarios.ErrSnapshot) rm]
      ∧ Errors (Append (Some Scenarios.ErrSnapshot) rm)
        = Errors (Some Scenarios.ErrSnapshot) ++ Errors rm
      ∧ (rm = None →
         Append (Some Scenarios.ErrSnapshot) rm = Some Scenarios.ErrSnapshot
         ∧ absent dir (Server.fs (exec (Server.handleCreate Scenarios.snapshotFailsHandler)
                                    Scenarios.freshWorld))).
Proof.
  assert (Server.failsAfterAllocation Scenarios.ErrSnapshot
            (Server.trace (Server.handleCreate Scenarios.snapshotFailsHandler)
               Scenarios.freshWorld)) as Hfail.
  { right; left. exists ["engine"; "backups"; "1"; "influxd.bolt"].
    vm_compute. repeat constructor. }
  split; [exact Hfail|].
  exact (handleCreate_rollback Scenarios.snapshotFailsHandler Scenarios.freshWorld
           Scenarios.ErrSnapshot Hfail).
Defined.

(** The engine is closed in [closedHandler]: the error is reported, and that
    is all. *)
Lemma handleCreate_allocation_failure_witness :
  Server.reported (Server.trace (Server.handleCreate Scenarios.closedHandler) Scenarios.freshWorld)
  = [Some Scenarios.ErrEngineClosed]
  ∧ Server.fs (exec (Server.handleCreate Scenarios.closedHandler) Scenarios.freshWorld)
    = Scenarios.emptyDisk.
Proof.
  pose proof (handleCreate_allocation_failure Scenarios.closedHandler Scenarios.freshWorld
                0 [] Scenarios.ErrEngineClosed 0 Scenarios.emptyDisk eq_refl) as Hrun.
  destruct Hrun as (_ & Hrep & _ & _ & Hfs & _). split; [exact Hrep|exact Hfs].
Defined.

(** C2 as stated fails: with an engine that stages a file under the
    reserved name, the create request succeeds and its manifest lists the
    reserved name twice. *)
Lemma handleCreate_lists_reserved_name_twice :
  Server.reported (Server.trace (Server.handleCreate Scenarios.clashHandler) Scenarios.freshWorld) = []
  ∧ last (Server.trace (Server.handleCreate Scenarios.clashHandler) Scenarios.freshWorld)
    = Some (Server.EvEncode {| ID := 1; Files := ["influxd.bolt"; "influxd.bolt"] |} None)
  ∧ Server.rw_body (Server.w (exec (Server.handleCreate Scenarios.clashHandler) Scenarios.freshWorld))
    = [Server.FrameJSON (JObj [("id", JNum 1);
                               ("files", JArr [JStr "influxd.bolt"; JStr "influxd.bolt"])])]
  ∧ occurrences Server.DefaultFilename ["influxd.bolt"; "influxd.bolt"] = 2%nat
  ∧ occurrences Server.DefaultFilename ["influxd.bolt"; "influxd.bolt"] ≠ 1%nat.
Proof. vm_compute. split_and!; done. Qed.

Lemma handleCreate_manifest_files_witness :
  Server.reported (Server.trace (Server.handleCreate Scenarios.plainHandler) Scenarios.freshWorld) = []
  ∧ ∃ b, last (Server.trace (Server.handleCreate Scenarios.plainHandler) Scenarios.freshWorld)
         = Some (Server.EvEncode b None)
         ∧ Files b = ["000000001.s1"; "influxd.bolt"]
         ∧ occurrences Server.DefaultFilename (Files b) = 1%nat.
Proof.
  assert (Server.reported (Server.trace (Server.handleCreate Scenarios.plainHandler)
                             Scenarios.freshWorld) = []) as Hok by (vm_compute; reflexivity).
  split; [exact Hok|].
  destruct (handleCreate_manifest_files Scenarios.plainHandler Scenarios.freshWorld Hok)
    as (id & shards & b & Hcreate & Hlast & _ & _ & Hfiles & _ & _ & _ & Honce).
  injection Hcreate as <- <-.
  exists b. split; [exact Hlast|]. split; [exact Hfiles|].
  apply Honce. vm_compute. intros Hin. inversion Hin as [|? ? ? Hin']. inversion Hin'.
Defined.

(** C7 as stated fails: with an engine that numbers its backups from 0, the
    first create request succeeds and its response has no [id] field. *)
Lemma handleCreate_response_without_id :
  Server.reported (Server.trace (Server.handleCreate Scenarios.plainHandler) Scenarios.zeroWorld) = []
  ∧ Server.rw_body (Server.w (exec (Server.handleCreate Scenarios.plainHandler) Scenarios.zeroWorld))
    = [Server.FrameJSON (JObj [("files", JArr [JStr "000000001.s1"; JStr "influxd.bolt"])])]
  ∧ field "id" (JObj [("files", JArr [JStr "000000001.s1"; JStr "influxd.bolt"])]) = None
  ∧ "id" ∉ fieldNames (JObj [("files", JArr [JStr "000000001.s1"; JStr "influxd.bolt"])]).
Proof.
  split_and!; [by vm_compute..|].
  cbn. intros Hin. inversion Hin as [|? ? ? Hin']. inversion Hin'.
Qed.

Lemma handleCreate_manifest_json_witness :
  Server.reported (Server.trace (Server.handleCreate Scenarios.plainHandler) Scenarios.freshWorld) = []
  ∧ ∃ j, Server.rw_body (Server.w (exec (Server.handleCreate Scenarios.plainHandler) Scenarios.freshWorld))
         = [Server.FrameJSON j]
         ∧ j = JObj [("id", JNum 1); ("files", JArr [JStr "000000001.s1"; JStr "influxd.bolt"])].
Proof.
  assert (Server.reported (Server.trace (Server.handleCreate Scenarios.plainHandler)
                             Scenarios.freshWorld) = []) as Hok by (vm_compute; reflexivity).
  split; [exact Hok|].
  destruct (handleCreate_manifest_json Scenarios.plainHandler Scenarios.freshWorld Hok)
    as (id & shards & j & Hcreate & Hbody & _ & _ & _ & Hobj).
  injection Hcreate as <- <-.
  exists j. split; [exact Hbody|]. apply Hobj. discriminate.
Defined.

(** [1x] is not a decimal integer: the fetch is refused before the engine
    is asked. *)
Lemma handleFetchFile_bad_id_witness :
  isDecimalInteger (Server.ByName Scenarios.badParams "backup_id") = false
  ∧ ∃ e, Atoi (Server.ByName Scenarios.badParams "backup_id") = inl e
         ∧ Server.trace (Server.handleFetchFile Scenarios.plainHandler Scenarios.badParams)
             Scenarios.freshWorld = [Server.EvHandleHTTPError (Some e)]
         ∧ Forall (fun ev => Server.isFetch ev = false)
             (Server.trace (Server.handleFetchFile Scenarios.plainHandler Scenarios.badParams)
                Scenarios.freshWorld)
         ∧ Server.w (exec (Server.handleFetchFile Scenarios.plainHandler Scenarios.badParams)
                       Scenarios.freshWorld) = Server.w Scenarios.freshWorld
         ∧ Server.fs (exec (Server.handleFetchFile Scenarios.plainHandler Scenarios.badParams)
                        Scenarios.freshWorld) = Server.fs Scenarios.freshWorld
         ∧ Server.eng (exec (Server.handleFetchFile Scenarios.plainHandler Scenarios.badParams)
                         Scenarios.freshWorld) = Server.eng Scenarios.freshWorld.
Proof.
  split; [reflexivity|].
  exact (handleFetchFile_bad_id Scenarios.plainHandler Scenarios.badParams Scenarios.freshWorld
           eq_refl).
Defined.

(** The metadata file of backup 1 is fetched whole, in two reads. *)
Lemma FetchBackupFile_exact_bytes_witness :
  (Client.FetchBackupFile Scenarios.testEnv Scenarios.testService 1 "influxd.bolt"
     Scenarios.emptyWire).1 = None
  ∧ ∃ u resp,
      let hc := Client.backupClient Scenarios.testEnv Scenarios.testService u in
      let req := {| Client.Method := Client.MethodGet; Client.Target := Client.String_ u;
                    Client.Authorization := Some (Client.Token Scenarios.testService);
                    Client.WithCtx := false |} in
      Client.NewURL Scenarios.testEnv (Client.Addr Scenarios.testService)
        (Client.composeBackupFilePath Scenarios.testEnv 1 "influxd.bolt") = inr u
      ∧ Client.sent (Client.FetchBackupFile Scenarios.testEnv Scenarios.testService 1 "influxd.bolt"
                       Scenarios.emptyWire).2
        = Client.sent Scenarios.emptyWire ++ [(hc, req)]
      ∧ Client.roundTrip Scenarios.testEnv hc req = inr resp
      ∧ Client.CheckError Scenarios.testEnv resp = None
      ∧ final (Client.RespBody resp) = EOF
      ∧ accepted (Client.sink (Client.FetchBackupFile Scenarios.testEnv Scenarios.testService 1
                                 "influxd.bolt" Scenarios.emptyWire).2)
        = accepted (Client.sink Scenarios.emptyWire) ++ content (Client.RespBody resp)
      ∧ ∀ n written dst,
          CopyBuffer (Client.sink Scenarios.emptyWire) (Client.RespBody resp) n
          = ((written, None), dst) →
          accepted dst
          = accepted (Client.sink (Client.FetchBackupFile Scenarios.testEnv Scenarios.testService 1
                                     "influxd.bolt" Scenarios.emptyWire).2).
Proof.
  assert ((Client.FetchBackupFile Scenarios.testEnv Scenarios.testService 1 "influxd.bolt"
             Scenarios.emptyWire).1 = None) as Hok by (vm_compute; reflexivity).
  split; [exact Hok|].
  exact (FetchBackupFile_exact_bytes Scenarios.testEnv Scenarios.testService 1 "influxd.bolt"
           Scenarios.emptyWire Hok).
Defined.

Example fetch_meta_file :
  Client.FetchBackupFile Scenarios.testEnv Scenarios.testService 1 "influxd.bolt" Scenarios.emptyWire
  = (None,
     {| Client.sent :=
          [({| Client.Timeout := 3600000000000; Client.SkipVerify := false |},
            {| Client.Method := "GET"; Client.Target := Scenarios.metaURL;
               Client.Authorization := Some "s3cr3t"; Client.WithCtx := false |})];
        Client.sink := {| accepted := [x01; x02; x03]; room := None |} |}).
Proof. vm_compute. reflexivity. Qed.

(** A sink with room for two bytes gets two bytes and the fetch fails. *)
Example fetch_meta_file_short_sink :
  Client.FetchBackupFile Scenarios.testEnv Scenarios.testService 1 "influxd.bolt"
    {| Client.sent := []; Client.sink := {| accepted := []; room := Some 2%nat |} |}
  = (Some ENOSPC,
     {| Client.sent :=
          [({| Client.Timeout := 3600000000000; Client.SkipVerify := false |},
            {| Client.Method := "GET"; Client.Target := Scenarios.metaURL;
               Client.Authorization := Some "s3cr3t"; Client.WithCtx := false |})];
        Client.sink := {| accepted := [x01; x02]; room := Some 0%nat |} |}).
Proof. vm_compute. reflexivity. Qed.

(** The log viewer validation at the scenarios. *)
Example valid_config_accepted :
  OrgConfig.validLogViewerConfig
    {| OrgConfig.Columns := [Scenarios.timeColumn; Scenarios.severityColumn] |} = None.
Proof. vm_compute. reflexivity. Qed.

Example duplicate_column_rejected :
  OrgConfig.validLogViewerConfig
    {| OrgConfig.Columns := [Scenarios.timeColumn; Scenarios.timeColumn] |}
  = Some (Errorf "Invalid log viewer config: Duplicate column name time").
Proof. vm_compute. reflexivity. Qed.

Example no_column_rejected :
  OrgConfig.validLogViewerConfig {| OrgConfig.Columns := [] |}
  = Some (Errorf "Invalid log viewer config: must have at least 1 column").
Proof. vm_compute. reflexivity. Qed.

Example replace_good_config :
  let st' := exec (OrgConfig.ReplaceLogViewerOrganizationConfig Scenarios.testOrgService
                     (Scenarios.request "good")) Scenarios.emptyOrgWorld in
  OrgConfig.calls st'
  = [OrgConfig.CallFindOrCreate "default";
     OrgConfig.CallUpdate
       {| OrgConfig.OrganizationID := "default";
          OrgConfig.LogViewer :=
            {| OrgConfig.Columns := [Scenarios.timeColumn; Scenarios.severityColumn] |} |}]
  ∧ OrgConfig.isErrorResponse <$> OrgConfig.out st' = [false].
Proof. vm_compute. done. Qed.

(** A body with a column listed twice is refused and the store is not
    touched. *)
Lemma ReplaceLogViewer_rejects_before_store_witness :
  OrgConfig.store (exec (OrgConfig.ReplaceLogViewerOrganizationConfig Scenarios.testOrgService
                           (Scenarios.request "twice")) Scenarios.emptyOrgWorld)
  = OrgConfig.store Scenarios.emptyOrgWorld
  ∧ OrgConfig.calls (exec (OrgConfig.ReplaceLogViewerOrganizationConfig Scenarios.testOrgService
                             (Scenarios.request "twice")) Scenarios.emptyOrgWorld)
    = OrgConfig.calls Scenarios.emptyOrgWorld
  ∧ ∃ resp,
      OrgConfig.out (exec (OrgConfig.ReplaceLogViewerOrganizationConfig Scenarios.testOrgService
                             (Scenarios.request "twice")) Scenarios.emptyOrgWorld)
      = OrgConfig.out Scenarios.emptyOrgWorld ++ [resp]
      ∧ OrgConfig.isErrorResponse resp = true.
Proof.
  apply (ReplaceLogViewer_rejects_before_store Scenarios.testOrgService
           (Scenarios.request "twice") Scenarios.emptyOrgWorld).
  right.
  exists {| OrgConfig.Columns := [Scenarios.timeColumn; Scenarios.timeColumn] |},
         (Errorf "Invalid log viewer config: Duplicate column name time").
  split; vm_compute; reflexivity.
Defined.

(* ===================================================================== *)
(** * Part III: further properties of the code                            *)
(* ===================================================================== *)

(** ** The log viewer validation, in full *)
Section ValidLogViewerConfig.
Import OrgConfig OrgConfigSpec.

Lemma eqb_decide (a b : string) : (a =? b)%string = bool_decide (a = b).
Proof.
  destruct (String.eqb_spec a b);
    [by rewrite bool_decide_eq_true_2|by rewrite bool_decide_eq_false_2].
Qed.

(** The inner loop in closed form: it fails on a visibility that is
    neither "visible" nor "hidden", and counts otherwise. *)
Lemma encodingsLoop_closed clm es c :
  let vis := filter (fun e => enc_Type e = "visibility") es in
  let sev := bool_decide (clm_Name clm = "severity") in
  let icons := length (filter (fun e => enc_Value e = "icon") es) in
  let texts := length (filter (fun e => enc_Value e = "text") es) in
  encodingsLoop clm es c =
    if decide (Forall visibilityOK vis) then
      inr {| iconCount := iconCount c + (if sev then Z.of_nat icons else 0);
             textCount := textCount c + (if sev then Z.of_nat texts else 0);
             visibility := visibility c + Z.of_nat (length vis) |}
    else inl (Errorf ("Invalid log viewer config: invalid visibility in column " +:+ clm_Name clm)).
Proof.
  revert c. induction es as [|e es IH]; intros c; cbn zeta.
  - rewrite !filter_nil. rewrite decide_True by constructor.
    destruct c; cbn. destruct (bool_decide (clm_Name clm = "severity")); f_equal; f_equal; lia.
  - cbn [encodingsLoop]. rewrite !eqb_decide.
    rewrite !filter_cons.
    destruct (decide (enc_Type e = "visibility")) as [Hv|Hv].
    + rewrite (bool_decide_eq_true_2 _ Hv). cbn [andb].
      destruct (decide (enc_Value e = "visible")) as [Hvis|Hvis];
        [|destruct (decide (enc_Value e = "hidden")) as [Hhid|Hhid]].
      * rewrite (bool_decide_eq_true_2 _ Hvis). cbn [orb negb].
        rewrite IH. cbn zeta.
        assert (enc_Value e ≠ "icon") as Hi by (rewrite Hvis; done).
        assert (enc_Value e ≠ "text") as Ht by (rewrite Hvis; done).
        rewrite (bool_decide_eq_false_2 _ Hi), (bool_decide_eq_false_2 _ Ht).
        rewrite (decide_False (P := enc_Value e = "icon")) by done.
        rewrite (decide_False (P := enc_Value e = "text")) by done.
        destruct (decide (Forall visibilityOK (filter _ es))) as [Hall|Hall].
        -- rewrite decide_True by (constructor; [by left|done]).
           destruct (bool_decide (clm_Name clm = "severity")); cbn; f_equal; f_equal; lia.
        -- rewrite decide_False; [by destruct (bool_decide (clm_Name clm = "severity"))|].
           intros Hc. apply Hall. by inversion Hc.
      * rewrite (bool_decide_eq_false_2 _ Hvis), (bool_decide_eq_true_2 _ Hhid). cbn [orb negb].
        rewrite IH. cbn zeta.
        assert (enc_Value e ≠ "icon") as Hi by (rewrite Hhid; done).
        assert (enc_Value e ≠ "text") as Ht by (rewrite Hhid; done).
        rewrite (bool_decide_eq_false_2 _ Hi), (bool_decide_eq_false_2 _ Ht).
        rewrite (decide_False (P := enc_Value e = "icon")) by done.
        rewrite (decide_False (P := enc_Value e = "text")) by done.
        destruct (decide (Forall visibilityOK (filter _ es))) as [Hall|Hall].
        -- rewrite decide_True by (constructor; [by right|done]).
           destruct (bool_decide (clm_Name clm = "severity")); cbn; f_equal; f_equal; lia.
        -- rewrite decide_False; [by destruct (bool_decide (clm_Name clm = "severity"))|].
           intros Hc. apply Hall. by inversion Hc.
      * rewrite (bool_decide_eq_false_2 _ Hvis), (bool_decide_eq_false_2 _ Hhid). cbn [orb negb].
        rewrite decide_False; [done|].
        intros Hc. inversion Hc as [|? ? [?|?] ?]; done.
    + rewrite (bool_decide_eq_false_2 _ Hv). cbn [andb].
      rewrite IH. cbn zeta.
      destruct (decide (Forall visibilityOK (filter _ es))) as [Hall|Hall]; [|done].
      destruct (bool_decide (clm_Name clm = "severity")) eqn:Hsev; cbn.
      * destruct (decide (enc_Value e = "icon")) as [Hi|Hi].
        -- rewrite (bool_decide_eq_true_2 _ Hi).
           assert (enc_Value e ≠ "text") as Ht by (rewrite Hi; done).
           rewrite (decide_False (P := enc_Value e = "text")) by done.
           cbn. f_equal. f_equal; lia.
        -- rewrite (bool_decide_eq_false_2 _ Hi).
           destruct (decide (enc_Value e = "text")) as [Ht|Ht].
           ++ rewrite (bool_decide_eq_true_2 _ Ht). cbn. f_equal. f_equal; lia.
           ++ rewrite (bool_decide_eq_false_2 _ Ht). cbn. done.
      * done.
Qed.

(** One turn of the outer loop. *)
Lemma columnsLoop_cons clm clms (nm : gmap string bool) (pm : gmap Z bool) :
  columnsLoop (clm :: clms) nm pm = None ↔
  nm !! clm_Name clm = None
  ∧ pm !! clm_Position clm = None
  ∧ validColumn clm
  ∧ columnsLoop clms (<[clm_Name clm := true]> nm) (<[clm_Position clm := true]> pm) = None.
Proof.
  cbn [columnsLoop].
  destruct (nm !! clm_Name clm) as [?|]; [by split; [|intros (? & _)]|].
  destruct (pm !! clm_Position clm) as [?|]; [by split; [|intros (_ & ? & _)]|].
  rewrite encodingsLoop_closed. cbn zeta. cbn [iconCount textCount visibility].
  fold (visibilityEncodings clm). fold (countValue "icon" clm) (countValue "text" clm).
  unfold validColumn.
  destruct (decide (Forall visibilityOK (visibilityEncodings clm))) as [Hall|Hall];
    [|split; [done|intros (_ & _ & (_ & ? & _) & _); done]].
  cbn [iconCount textCount visibility].
  destruct (decide (length (visibilityEncodings clm) = 1%nat)) as [Hone|Hone]; cycle 1.
  { replace (0 + Z.of_nat (length (visibilityEncodings clm)) =? 1)%Z with false
      by (symmetry; apply Z.eqb_neq; lia).
    cbn. split; [done|intros (_ & _ & (? & _) & _); done]. }
  replace (0 + Z.of_nat (length (visibilityEncodings clm)) =? 1)%Z with true
    by (symmetry; apply Z.eqb_eq; lia).
  cbn [negb]. rewrite eqb_decide.
  destruct (decide (clm_Name clm = "severity")) as [Hsev|Hsev].
  - rewrite (bool_decide_eq_true_2 _ Hsev). cbn [andb].
    destruct ((0 + Z.of_nat (countValue "icon" clm) + (0 + Z.of_nat (countValue "text" clm)) =? 0)%Z
              || (1 <? 0 + Z.of_nat (countValue "icon" clm))%Z
              || (1 <? 0 + Z.of_nat (countValue "text" clm))%Z) eqn:Hbad.
    + split; [done|]. intros (_ & _ & (_ & _ & Hs) & _). destruct (Hs Hsev) as (? & ? & ?).
      apply orb_true_iff in Hbad as [Hbad|Hbad]; [apply orb_true_iff in Hbad as [Hbad|Hbad]|].
      * apply Z.eqb_eq in Hbad. lia.
      * apply Z.ltb_lt in Hbad. lia.
      * apply Z.ltb_lt in Hbad. lia.
    + apply orb_false_iff in Hbad as [Hbad Ht]. apply orb_false_iff in Hbad as [Hz Hi].
      apply Z.eqb_neq in Hz. apply Z.ltb_ge in Hi, Ht.
      split; [intros Hrest; split_and!; try done; intros _; lia|by intros (_ & _ & _ & ?)].
  - rewrite (bool_decide_eq_false_2 _ Hsev). cbn [andb].
    split; [intros Hrest; split_and!; done|by intros (_ & _ & _ & ?)].
Qed.

(** The outer loop accepts the columns that are valid, and whose names and
    positions are new to the two maps and to each other. *)
Lemma columnsLoop_None clms (nm : gmap string bool) (pm : gmap Z bool) :
  columnsLoop clms nm pm = None ↔
  (∀ clm, clm ∈ clms → nm !! clm_Name clm = None)
  ∧ NoDup (clm_Name <$> clms)
  ∧ (∀ clm, clm ∈ clms → pm !! clm_Position clm = None)
  ∧ NoDup (clm_Position <$> clms)
  ∧ Forall validColumn clms.
Proof.
  revert nm pm. induction clms as [|clm clms IH]; intros nm pm.
  - cbn. split; [intros _|done].
    split_and!; try constructor; intros ? Hin; by apply elem_of_nil in Hin.
  - rewrite columnsLoop_cons, IH. rewrite !fmap_cons, !NoDup_cons, Forall_cons. split.
    + intros (Hn & Hp & Hv & Hnames & Hnd & Hpos & Hpd & Hall).
      assert (∀ c, c ∈ clms → clm_Name c ≠ clm_Name clm ∧ nm !! clm_Name c = None) as Hn'.
      { intros c Hc. specialize (Hnames c Hc).
        apply lookup_insert_None in Hnames as [? ?]. done. }
      assert (∀ c, c ∈ clms → clm_Position c ≠ clm_Position clm ∧ pm !! clm_Position c = None)
        as Hp'.
      { intros c Hc. specialize (Hpos c Hc).
        apply lookup_insert_None in Hpos as [? ?]. done. }
      split_and!; try done.
      * intros c [->|Hc]%elem_of_cons; [done|]. by apply Hn'.
      * intros (c & Heq & Hc)%list_elem_of_fmap. destruct (Hn' c Hc) as [Hne _]. by apply Hne.
      * intros c [->|Hc]%elem_of_cons; [done|]. by apply Hp'.
      * intros (c & Heq & Hc)%list_elem_of_fmap. destruct (Hp' c Hc) as [Hne _]. by apply Hne.
    + intros (Hnames & (Hnin & Hnd) & Hpos & (Hpin & Hpd) & Hv & Hall).
      split_and!; try done.
      * apply Hnames. by left.
      * apply Hpos. by left.
      * intros c Hc. apply lookup_insert_None. split; [apply Hnames; by right|].
        intros Heq. apply Hnin. apply list_elem_of_fmap. by exists c.
      * intros c Hc. apply lookup_insert_None. split; [apply Hpos; by right|].
        intros Heq. apply Hpin. apply list_elem_of_fmap. by exists c.
Qed.

Lemma accepted_wellFormed (cfg : LogViewerConfig) :
  validLogViewerConfig cfg = None → wellFormed cfg.
Proof.
  unfold validLogViewerConfig, wellFormed.
  destruct (Columns cfg) as [|clm clms]; [done|].
  cbn [length Nat.eqb]. rewrite columnsLoop_None. by intros (_ & ? & _ & ? & ?).
Qed.

Lemma wellFormed_accepted (cfg : LogViewerConfig) :
  wellFormed cfg → validLogViewerConfig cfg = None.
Proof.
  unfold validLogViewerConfig, wellFormed.
  destruct (Columns cfg) as [|clm clms]; [by intros (? & _)|].
  cbn [length Nat.eqb]. rewrite columnsLoop_None.
  intros (_ & ? & ? & ?). split_and!; try done; intros; apply lookup_empty.
Qed.

(** X1. [validLogViewerConfig] returns no error exactly for the configs
    that the comment above it describes: at least one column, no two
    columns with the same name or the same position, in every column one
    visibility encoding, valued "visible" or "hidden", and in a column
    named "severity" at least one encoding valued "icon" or "text" and at
    most one of each. *)
Theorem validLogViewerConfig_accepts_iff_wellFormed (cfg : LogViewerConfig) :
  validLogViewerConfig cfg = None ↔ wellFormed cfg.
Proof.
  unfold validLogViewerConfig, wellFormed.
  destruct (Columns cfg) as [|clm clms] eqn:Hcols.
  - cbn. split; [done|by intros (? & _)].
  - cbn [length Nat.eqb]. rewrite columnsLoop_None. split.
    + intros (_ & ? & _ & ? & ?). done.
    + intros (_ & ? & ? & ?). split_and!; try done; intros; apply lookup_empty.
Qed.

Lemma wellFormed_Permutation (a b : LogViewerConfig) :
  Columns a ≡ₚ Columns b → wellFormed a → wellFormed b.
Proof.
  intros Hperm (Hne & Hnames & Hpos & Hall). split_and!.
  - intros Hb. rewrite Hb in Hperm. by apply Permutation_nil_r in Hperm.
  - by rewrite <- Hperm.
  - by rewrite <- Hperm.
  - by rewrite <- Hperm.
Qed.

(** X2. Whether [validLogViewerConfig] accepts a config does not depend on
    the order of its columns. *)
Theorem validLogViewerConfig_order_irrelevant (a b : LogViewerConfig) :
  Columns a ≡ₚ Columns b →
  (validLogViewerConfig a = None ↔ validLogViewerConfig b = None).
Proof.
  intros Hperm. split; intros Hok%accepted_wellFormed; apply wellFormed_accepted.
  - by apply (wellFormed_Permutation a b).
  - by apply (wellFormed_Permutation b a).
Qed.

End ValidLogViewerConfig.

(** ** The handlers of the organization config *)
Section OrgConfigHandlers.
Import OrgConfig OrgConfigRead OrgConfigSpec.
Context {S : Type}.
Implicit Types (s : Service S) (r : Request) (st : World S).

Lemma newOut_of_out {A} (m : M (World S) A) st l :
  out (exec m st) = out st ++ l → newOut m st = l.
Proof. intros Ho. unfold newOut. by rewrite Ho, drop_app_length. Qed.

Lemma newCalls_of_calls {A} (m : M (World S) A) st l :
  calls (exec m st) = calls st ++ l → newCalls m st = l.
Proof. intros Hc. unfold newCalls. by rewrite Hc, drop_app_length. Qed.

(** Every run of [ReplaceLogViewerOrganizationConfig] is one of the three. *)
Lemma Replace_outcome s r st :
  replaceOutcome s r st (exec (ReplaceLogViewerOrganizationConfig s r) st).
Proof.
  unfold ReplaceLogViewerOrganizationConfig.
  destruct (hasOrganizationContext r) as [orgID|] eqn:Horg; [|by apply ReplaceRefused].
  destruct (jsonDecode s (Body r)) as [e|cfg] eqn:Hdec; [by apply ReplaceRefused|].
  destruct (validLogViewerConfig cfg) as [e|] eqn:Hvalid; [by apply ReplaceRefused|].
  unfold exec, bind, callFindOrCreate, callUpdate, respond, modify.
  destruct (FindOrCreate (Store s) orgID (store st)) as [[found e] m1] eqn:Hfind.
  destruct e as [e|].
  { cbn. eapply ReplaceNotFound; eauto. }
  destruct found as [found|]; cycle 1.
  { cbn. eapply ReplaceNotFound; eauto. }
  cbn.
  destruct (Update (Store s) {| OrganizationID := OrganizationID found; LogViewer := cfg |} m1)
    as [e m2] eqn:Hupd.
  pose proof (ReplaceUpdated s r st orgID cfg found m1 e m2 Horg Hdec Hvalid Hfind Hupd) as Hout.
  destruct e; cbn in *; by rewrite <- app_assoc.
Qed.

(** X3. Every run of [ReplaceLogViewerOrganizationConfig] answers exactly
    once; [Update] runs at most once, after
    [FindOrCreate] for the organization of the request, with a config whose
    log viewer section passed the validation. *)
Theorem Replace_one_response_one_update s r st :
  (∃ resp, newOut (ReplaceLogViewerOrganizationConfig s r) st = [resp])
  ∧ (newCalls (ReplaceLogViewerOrganizationConfig s r) st = []
     ∨ (∃ orgID, hasOrganizationContext r = Some orgID
                 ∧ newCalls (ReplaceLogViewerOrganizationConfig s r) st = [CallFindOrCreate orgID])
     ∨ (∃ orgID c, hasOrganizationContext r = Some orgID
                   ∧ newCalls (ReplaceLogViewerOrganizationConfig s r) st
                     = [CallFindOrCreate orgID; CallUpdate c]
                   ∧ jsonDecode s (Body r) = inr (LogViewer c)
                   ∧ wellFormed (LogViewer c))).
Proof.
  unfold newOut, newCalls.
  destruct (Replace_outcome s r st) as [resp Herr|orgID cfg found e m1 resp Horg Hdec Hval Hfind Hnone Herr
                                        |orgID cfg found m1 e m2 Horg Hdec Hval Hfind Hupd].
  all: cbn [out calls]; rewrite ?drop_app_length; (split; [by eexists|]).
  - left. by rewrite drop_all.
  - right; left. by exists orgID.
  - right; right. eexists orgID, _. split_and!; try done.
    by apply accepted_wellFormed.
Qed.

(** X4. A success response of [ReplaceLogViewerOrganizationConfig] means
    that the body decoded to a well-formed log viewer config, that the
    store found the config of the organization and accepted the update of
    that config with the new log viewer section, and the response carries
    the submitted section with status 200. *)
Theorem Replace_success s r st status res :
  newOut (ReplaceLogViewerOrganizationConfig s r) st = [RespJSON status res] →
  ∃ orgID cfg found m1,
    hasOrganizationContext r = Some orgID
    ∧ jsonDecode s (Body r) = inr cfg
    ∧ wellFormed cfg
    ∧ FindOrCreate (Store s) orgID (store st) = ((Some found, None), m1)
    ∧ Update (Store s) {| OrganizationID := OrganizationID found; LogViewer := cfg |} m1
      = (None, store (exec (ReplaceLogViewerOrganizationConfig s r) st))
    ∧ status = StatusOK
    ∧ res = newLogViewerConfigResponse cfg.
Proof.
  unfold newOut.
  destruct (Replace_outcome s r st) as [resp Herr|orgID cfg found e m1 resp Horg Hdec Hval Hfind Hnone Herr
                                        |orgID cfg found m1 e m2 Horg Hdec Hval Hfind Hupd].
  all: cbn [out store]; rewrite drop_app_length.
  - intros [= ->]. done.
  - intros [= ->]. done.
  - destruct e as [err|]; intros [= <- <-].
    exists orgID, cfg, found, m1. split_and!; try done.
    by apply accepted_wellFormed.
Qed.

(** *** The read handlers *)
Lemma LogViewerOrganizationConfig_run s r st :
  exec (LogViewerOrganizationConfig s r) st =
  match hasOrganizationContext r with
  | None => {| store := store st; calls := calls st;
               out := out st ++ [RespError StatusBadRequest "Organization not found on context"] |}
  | Some orgID =>
      let '((config, err), m1) := FindOrCreate (Store s) orgID (store st) in
      {| store := m1; calls := calls st ++ [CallFindOrCreate orgID];
         out := out st ++ [match err, config with
                           | Some e, _ => RespError StatusBadRequest (Error e)
                           | None, None => RespError StatusBadRequest
                                             "Organization configuration object was nil"
                           | None, Some c => RespJSON StatusOK (newLogViewerConfigResponse (LogViewer c))
                           end] |}
  end.
Proof.
  unfold LogViewerOrganizationConfig.
  destruct (hasOrganizationContext r) as [orgID|]; [|done].
  unfold exec, bind, callFindOrCreate.
  destruct (FindOrCreate (Store s) orgID (store st)) as [[[c|] [e|]] m1]; done.
Qed.

(** X5. [LogViewerOrganizationConfig] answers exactly once, never
    calls [Update], and answers with a success exactly when the store
    finds a config for the organization of the request, whose log viewer
    section it then returns. *)
Theorem LogViewerOrganizationConfig_reads s r st :
  Forall (fun c => isUpdate c = false) (newCalls (LogViewerOrganizationConfig s r) st)
  ∧ ∃ resp, newOut (LogViewerOrganizationConfig s r) st = [resp]
     ∧ ∀ status res,
         resp = RespJSON status res ↔
         ∃ orgID c m1, hasOrganizationContext r = Some orgID
                       ∧ FindOrCreate (Store s) orgID (store st) = ((Some c, None), m1)
                       ∧ status = StatusOK
                       ∧ res = newLogViewerConfigResponse (LogViewer c).
Proof.
  unfold newCalls, newOut. rewrite LogViewerOrganizationConfig_run.
  destruct (hasOrganizationContext r) as [orgID|] eqn:Horg.
  - destruct (FindOrCreate (Store s) orgID (store st)) as [[config err] m1] eqn:Hfind.
    cbn [calls out]. rewrite !drop_app_length. split; [by repeat constructor|].
    eexists. split; [done|]. intros status res.
    destruct err as [e|]; [|destruct config as [c|]].
    + split; [done|]. intros (? & ? & ? & [= <-] & Hf & _). by rewrite Hfind in Hf.
    + split.
      * intros [= <- <-]. by exists orgID, c, m1.
      * intros (? & ? & ? & [= <-] & Hf & -> & ->). rewrite Hfind in Hf. by injection Hf as <- <-.
    + split; [done|]. intros (? & ? & ? & [= <-] & Hf & _). by rewrite Hfind in Hf.
  - cbn [calls out]. rewrite drop_all, drop_app_length. split; [constructor|].
    eexists. split; [done|]. intros status res. split; [done|]. by intros (? & ? & ? & ? & _).
Qed.

(** X6. [OrganizationConfig] never calls [Update], and its response is a
    success exactly when the store finds a config for the organization of
    the request, which it then returns whole. *)
Theorem OrganizationConfig_reads s r st :
  Forall (fun c => isUpdate c = false) (newCalls (OrganizationConfig s r) st)
  ∧ ∀ status res,
      (OrganizationConfig s r st).1 = OrgRespJSON status res ↔
      ∃ orgID c m1, hasOrganizationContext r = Some orgID
                    ∧ FindOrCreate (Store s) orgID (store st) = ((Some c, None), m1)
                    ∧ status = StatusOK
                    ∧ res = newOrganizationConfigResponse c.
Proof.
  unfold newCalls, OrganizationConfig.
  destruct (hasOrganizationContext r) as [orgID|] eqn:Horg.
  - unfold exec, bind, callFindOrCreate.
    destruct (FindOrCreate (Store s) orgID (store st)) as [[config err] m1] eqn:Hfind.
    destruct err as [e|]; [|destruct config as [c|]]; cbn.
    all: rewrite drop_app_length.
    all: split; [by repeat constructor|]; intros status res.
    + split; [done|]. intros (? & ? & ? & [= <-] & Hf & _). by rewrite Hfind in Hf.
    + split.
      * intros [= <- <-]. by exists orgID, c, m1.
      * intros (? & ? & ? & [= <-] & Hf & -> & ->). rewrite Hfind in Hf. by injection Hf as <- <-.
    + split; [done|]. intros (? & ? & ? & [= <-] & Hf & _). by rewrite Hfind in Hf.
  - cbn. rewrite !drop_all. split; [constructor|].
    intros status res. split; [done|]. by intros (? & ? & ? & ? & _).
Qed.

(** X7. With a store that finds an organization's own config and reads its
    writes, [LogViewerOrganizationConfig] after a successful
    [ReplaceLogViewerOrganizationConfig] answers what the replace answered. *)
Theorem Replace_then_read s r st status res :
  findsOwn (Store s) → readsItsWrites (Store s) →
  newOut (ReplaceLogViewerOrganizationConfig s r) st = [RespJSON status res] →
  newOut (LogViewerOrganizationConfig s r) (exec (ReplaceLogViewerOrganizationConfig s r) st)
  = [RespJSON status res].
Proof.
  intros Hown Hrw. unfold newOut at 1.
  destruct (Replace_outcome s r st) as [resp Herr|orgID cfg found e m1 resp Horg Hdec Hval Hfind Hnone Herr
                                        |orgID cfg found m1 e m2 Horg Hdec Hval Hfind Hupd].
  all: cbn [out]; rewrite drop_app_length.
  - intros [= ->]. done.
  - intros [= ->]. done.
  - destruct e as [err|]; intros [= <- <-].
    apply Hown in Hfind as Hid. apply Hrw in Hupd as Hread. cbn in Hread. rewrite Hid in Hread.
    unfold newOut. rewrite LogViewerOrganizationConfig_run, Horg. cbn [store]. rewrite Hread.
    cbn [out]. by rewrite drop_app_length.
Qed.
End OrgConfigHandlers.

(** ** The backup handler and the disk *)

Lemma OpenFile_spec (name : path) (fs fs' : FS) (r : errval + path) :
  OpenFile name fs = (r, fs') →
  locked fs' = locked fs
  ∧ (∀ k, k ≠ name → nodes fs' !! k = nodes fs !! k)
  ∧ match r with
    | inl _ => fs' = fs
    | inr f => f = name ∧ nodes fs' !! name = Some (File [])
    end.
Proof.
  unfold OpenFile. case_decide; [by intros [= <- <-]|].
  destruct (nodes fs !! name) as [[|content]|] eqn:Hn; [by intros [= <- <-]|..].
  all: destruct (nodes fs !! parentOf name) as [[|?]|]; intros [= <- <-]; cbn; try done.
  all: split_and!; try done; [intros k Hk; by rewrite lookup_insert_ne|by rewrite lookup_insert_eq].
Qed.

Lemma appendFile_spec (f k : path) (data : list Byte.byte) (fs : FS) :
  locked (appendFile f data fs) = locked fs
  ∧ (k ≠ f → nodes (appendFile f data fs) !! k = nodes fs !! k)
  ∧ (∀ old, nodes fs !! f = Some (File old) →
            nodes (appendFile f data fs) !! f = Some (File (old ++ data))).
Proof.
  unfold appendFile. cbn. split_and!; [done| |].
  - intros Hk. by rewrite lookup_alter_ne.
  - intros old Hold. by rewrite lookup_alter_eq, Hold.
Qed.

Section ServerMore.
Import Server.
Context {E : Type} `{Bolt}.
Implicit Types (h : BackupHandler E) (st : World E).

(** X8. After a run of [handleCreate] that reports no error the metadata
    file in the backup directory holds exactly the snapshot, and nothing
    else on the disk differs from what the engine left. *)
Theorem handleCreate_success_disk h st :
  let st' := exec (handleCreate h) st in
  let created := CreateBackup (hBackupService h) (eng st, fs st) in
  let metaFilename := Join (InternalBackupPath (hBackupService h) created.1.1.1) DefaultFilename in
  reported (trace (handleCreate h) st) = [] →
  nodes (fs st') !! metaFilename = Some (File (snapshot (hKVBackupService h)))
  ∧ (∀ k, k ≠ metaFilename → nodes (fs st') !! k = nodes created.2.2 !! k)
  ∧ locked (fs st') = locked created.2.2
  ∧ eng st' = created.2.1.
Proof.
  intros st' created metaFilename Hok. subst st' created metaFilename.
  destruct (handleCreate_success _ _ Hok)
    as (id & shards & eng1 & fs1 & metaFile & fs2 & Hcreate & Hopen & Hkv & Hw).
  erewrite run_succeeds by done. rewrite Hcreate. cbn [fst snd eng fs].
  apply OpenFile_spec in Hopen as (Hlocked & Hother & -> & Hmeta).
  set (name := Join (InternalBackupPath (hBackupService h) id) DefaultFilename) in *.
  destruct (appendFile_spec name name (snapshot (hKVBackupService h)) fs2) as (Hl & _ & Hsame).
  split_and!.
  - by rewrite (Hsame [] Hmeta).
  - intros k Hk.
    destruct (appendFile_spec name k (snapshot (hKVBackupService h)) fs2) as (_ & Hne & _).
    rewrite Hne by done. by apply Hother.
  - by rewrite Hl.
  - done.
Qed.

(** X9. Whatever happens in [handleCreate], what is not at or below the
    backup directory is as the engine left it. *)
Theorem handleCreate_stays_in_backup_directory h st (k : path) :
  let st' := exec (handleCreate h) st in
  let created := CreateBackup (hBackupService h) (eng st, fs st) in
  let dir := InternalBackupPath (hBackupService h) created.1.1.1 in
  ¬ dir `prefix_of` k →
  nodes (fs st') !! k = nodes created.2.2 !! k ∧ locked (fs st') = locked created.2.2.
Proof.
  intros st' created dir Hk. subst st' created dir.
  destruct (CreateBackup (hBackupService h) (eng st, fs st))
    as [[[id files] [e0|]] [eng1 fs1]] eqn:Hcreate; cbn [fst snd] in *.
  { by erewrite run_allocation_fails by done. }
  set (dir := InternalBackupPath (hBackupService h) id) in *.
  assert (k ≠ Join dir DefaultFilename) as Hne.
  { intros ->. apply Hk. by apply prefix_app_r. }
  destruct (OpenFile (Join dir DefaultFilename) fs1) as [[eo|metaFile] fs2] eqn:Hopen.
  { erewrite run_open_fails by done. cbn [fs]. fold dir.
    apply OpenFile_spec in Hopen as (Hlocked & Hother & ->).
    by rewrite RemoveAll_outside. }
  pose proof (OpenFile_spec _ _ _ _ Hopen) as (Hlocked & Hother & -> & Hmeta).
  destruct (appendFile_spec (Join dir DefaultFilename) k (snapshot (hKVBackupService h)) fs2)
    as (Hl & Hsame & _).
  destruct (result (hKVBackupService h)) as [ek|] eqn:Hkv.
  { erewrite run_snapshot_fails by done. cbn [fs]. fold dir.
    rewrite RemoveAll_outside by done. rewrite Hsame by done.
    split; [by apply Hother|]. cbn. by rewrite <- Hlocked. }
  destruct (rw_fail (w st)) as [ew|] eqn:Hw.
  { erewrite run_encode_fails by done. cbn [fs]. fold dir.
    rewrite RemoveAll_outside by done. rewrite Hsame by done.
    split; [by apply Hother|]. cbn. by rewrite <- Hlocked. }
  erewrite run_succeeds by done. cbn [fs]. fold dir.
  rewrite Hsame by done. split; [by apply Hother|]. by rewrite Hl.
Qed.

(** X10. A run of [handleCreate] hands at most one error to
    [HandleHTTPError], never nil, and the report is the last thing it
    does: either [Encode] has returned nil for the manifest, that is the
    last call and nothing is reported, or one error is reported at the end
    of a run in which no [Encode] has returned nil. *)
Theorem handleCreate_reports_once h st :
  let evs := trace (handleCreate h) st in
  (reported evs = [] ∧ ∃ b, last evs = Some (EvEncode b None))
  ∨ (∃ e, reported evs = [Some e]
          ∧ last evs = Some (EvHandleHTTPError (Some e))
          ∧ ∀ b, EvEncode b None ∉ evs).
Proof.
  intros evs. subst evs.
  destruct (CreateBackup (hBackupService h) (eng st, fs st))
    as [[[id files] [e0|]] [eng1 fs1]] eqn:Hcreate.
  { right. exists e0. erewrite trace_of_log by (by erewrite run_allocation_fails).
    split_and!; [done..|]. intros b Hin.
    repeat (apply elem_of_cons in Hin as [Hin|Hin]; [discriminate Hin|]).
    by apply elem_of_nil in Hin. }
  set (dir := InternalBackupPath (hBackupService h) id).
  destruct (OpenFile (Join dir DefaultFilename) fs1) as [[eo|metaFile] fs2] eqn:Hopen.
  { right. erewrite trace_of_log by (by erewrite run_open_fails). cbn.
    destruct (Append_is_Some eo (RemoveAll dir fs2).1) as [e He]. exists e. rewrite <- He.
    split_and!; [done..|]. intros b Hin.
    repeat (apply elem_of_cons in Hin as [Hin|Hin]; [discriminate Hin|]).
    by apply elem_of_nil in Hin. }
  destruct (result (hKVBackupService h)) as [ek|] eqn:Hkv.
  { right. erewrite trace_of_log by (by erewrite run_snapshot_fails). cbn.
    match goal with |- context [Append (Some ek) ?r] =>
      destruct (Append_is_Some ek r) as [e He]; exists e; rewrite <- He end.
    split_and!; [done..|]. intros b Hin.
    repeat (apply elem_of_cons in Hin as [Hin|Hin]; [discriminate Hin|]).
    by apply elem_of_nil in Hin. }
  destruct (rw_fail (w st)) as [ew|] eqn:Hw.
  { right. erewrite trace_of_log by (by erewrite run_encode_fails). cbn.
    match goal with |- context [Append (Some ew) ?r] =>
      destruct (Append_is_Some ew r) as [e He]; exists e; rewrite <- He end.
    split_and!; [done..|]. intros b Hin.
    repeat (apply elem_of_cons in Hin as [Hin|Hin]; [discriminate Hin|]).
    by apply elem_of_nil in Hin. }
  left. erewrite trace_of_log by (by erewrite run_succeeds).
  split; [done|]. by eexists.
Qed.

End ServerMore.

(** ** fmt.Sprint, strconv.Atoi and the fetch handler *)

Ltac digit_value :=
  match goal with
  | |- context [Z.of_nat (nat_of_ascii ?c) - 48] =>
      let v := eval vm_compute in (Z.of_nat (nat_of_ascii c) - 48) in
      change (Z.of_nat (nat_of_ascii c) - 48) with v
  end.

Lemma digits_uint_acc (d : Decimal.uint) (acc : positive) :
  digits (Zpos acc) (DecimalString.NilEmpty.string_of_uint d) = Some (Zpos (Pos.of_uint_acc d acc)).
Proof.
  revert acc. induction d; intros acc; cbn [DecimalString.NilEmpty.string_of_uint digits Pos.of_uint_acc].
  1: done.
  all: change (isDigit _) with true; cbv iota; rewrite <- IHd; f_equal; digit_value; lia.
Qed.

Lemma digits_uint (d : Decimal.uint) :
  digits 0 (DecimalString.NilEmpty.string_of_uint d) = Some (Z.of_N (Pos.of_uint d)).
Proof.
  induction d; cbn [DecimalString.NilEmpty.string_of_uint digits Pos.of_uint]; [done|..].
  all: change (isDigit _) with true; cbv iota; digit_value.
  1: done.
  all: cbn [Z.mul Z.add Z.of_N]; apply digits_uint_acc.
Qed.

Lemma FormatInt_nonempty_uint (p : positive) :
  DecimalString.NilEmpty.string_of_uint (Pos.to_uint p) ≠ "".
Proof.
  intros Hs. pose proof (DecimalPos.Unsigned.of_to p) as Hof.
  destruct (Pos.to_uint p); [done|discriminate Hs..].
Qed.

Lemma uint_not_sign (d : Decimal.uint) c rest :
  DecimalString.NilEmpty.string_of_uint d = String c rest → c ≠ "-"%char ∧ c ≠ "+"%char.
Proof. destruct d; cbn; intros [= <- _]; done. Qed.

(** [strconv.Atoi] reads back what [fmt.Sprint] prints. *)
Lemma Atoi_FormatInt (n : Z) :
  (minInt ≤ n ≤ maxInt)%Z → Atoi (Fmt.FormatInt n) = inr n.
Proof.
  intros Hrange. unfold Fmt.FormatInt.
  assert ((minInt <=? n)%Z && (n <=? maxInt)%Z = true) as Hin.
  { apply andb_true_iff. split; apply Z.leb_le; lia. }
  pose proof (DecimalZ.of_to n) as Hof.
  destruct n as [|p|p]; cbn [Z.to_int DecimalString.NilEmpty.string_of_int] in *.
  - done.
  - unfold Z.of_int, Z.of_uint in Hof.
    destruct (DecimalString.NilEmpty.string_of_uint (Pos.to_uint p)) as [|c rest] eqn:Hs;
      [by apply FormatInt_nonempty_uint in Hs|].
    destruct (uint_not_sign _ _ _ Hs) as [Hm Hp].
    unfold Atoi.
    assert (match String c rest with
            | String "-"%char r => (true, r)
            | String "+"%char r => (false, r)
            | _ => (false, String c rest)
            end = (false, String c rest)) as ->.
    { destruct c as [[] [] [] [] [] [] [] []]; done. }
    rewrite <- Hs, digits_uint, Hof. cbv zeta. rewrite Hs. by rewrite Hin.
  - unfold Z.of_int, Z.of_uint in Hof. unfold Atoi.
    set (body := DecimalString.NilEmpty.string_of_uint (Pos.to_uint p)) in *.
    change (match String "-"%char body with
            | String "-"%char r => (true, r)
            | String "+"%char r => (false, r)
            | _ => (false, String "-"%char body)
            end) with (true, body).
    cbv beta iota zeta.
    destruct body as [|c rest] eqn:Hs; [by apply FormatInt_nonempty_uint in Hs|].
    rewrite <- Hs. subst body. rewrite digits_uint.
    rewrite Hof. by rewrite Hin.
Qed.

Section FetchMore.
Import Server.
Context {E : Type} `{Bolt}.
Implicit Types (h : BackupHandler E) (st : World E).

(** X11. In [handleFetchFile] an ID printed by [fmt.Sprint] in the
    [backup_id] segment reaches the
    engine as that ID, with the [backup_file] segment as the file name;
    the engine is called once, what it writes is the response, and its
    error, if any, is what is reported. *)
Theorem handleFetchFile_calls_engine h (params : Params) st (backupID : Z) :
  (minInt ≤ backupID ≤ maxInt)%Z →
  ByName params "backup_id" = Fmt.FormatInt backupID →
  let st' := exec (handleFetchFile h params) st in
  let backupFile := ByName params "backup_file" in
  let served := FetchBackupFile (hBackupService h) backupID backupFile (w st) (eng st, fs st) in
  trace (handleFetchFile h params) st
  = EvFetchBackupFile backupID backupFile served.1.1
      :: match served.1.1 with Some e => [EvHandleHTTPError (Some e)] | None => [] end
  ∧ w st' = served.1.2 ∧ eng st' = served.2.1 ∧ fs st' = served.2.2.
Proof.
  intros Hrange Hid st' backupFile served. subst st' backupFile served.
  unfold handleFetchFile. rewrite Hid, (Atoi_FormatInt _ Hrange).
  unfold trace, exec, bind, svcFetchBackupFile, HandleHTTPError, emit, modify, ret.
  destruct (FetchBackupFile (hBackupService h) backupID (ByName params "backup_file") (w st)
              (eng st, fs st)) as [[[e|] w'] [eng' fs']]; cbn.
  - by rewrite <- app_assoc, drop_app_length.
  - by rewrite drop_app_length.
Qed.
End FetchMore.

(** ** The copy of a fetch, and the requests of the client *)
Import CopySpec.

Lemma copyOutcome_nil_read (dst : Writer) (src src' : Reader) (written : Z) :
  content src = content src' → final src' = final src →
  copyOutcome dst src' written = copyOutcome dst src written.
Proof. intros Hc Hf. unfold copyOutcome. by rewrite Hc, Hf. Qed.

Lemma copyLoop_outcome (fuel : nat) (n : N) (dst : Writer) (src : Reader) (written : Z) :
  (0 < n)%N → (measure src < fuel)%nat →
  copyLoop fuel n dst src written = Some (copyOutcome dst src written).
Proof.
  intros Hn. revert dst src written.
  induction fuel as [|fuel IH]; intros dst src written Hfuel; [lia|].
  cbn [copyLoop].
  destruct (Read n src) as [[data er] src'] eqn:Hread.
  pose proof (Read_content _ _ _ _ _ Hread) as (Hcontent & Hfinal & Her).
  destruct Her as [-> | (-> & -> & Hnil)].
  - pose proof (Read_measure _ _ _ _ Hn Hread) as Hlt.
    destruct (0 <? Z.of_nat (length data))%Z eqn:Hnr.
    + apply Z.ltb_lt in Hnr.
      unfold Write, copyOutcome at 1. rewrite Hcontent, length_app.
      destruct dst as [acc [k|]]; cbn [room accepted].
      * destruct (length data <=? k)%nat eqn:Hfit.
        -- apply Nat.leb_le in Hfit.
           replace ((Z.of_nat (length data) <? 0)%Z
                    || (Z.of_nat (length data) <? Z.of_nat (length data))%Z) with false
             by (symmetry; apply orb_false_iff; split; apply Z.ltb_ge; lia).
           rewrite Z.eqb_refl. cbn [negb]. rewrite IH by lia.
           unfold copyOutcome. cbn [room accepted]. rewrite Hfinal.
           destruct (length (content src') <=? k - length data)%nat eqn:Hrest.
           ++ apply Nat.leb_le in Hrest.
              replace (length data + length (content src') <=? k)%nat with true
                by (symmetry; apply Nat.leb_le; lia).
              by rewrite <- app_assoc, Nat2Z.inj_add, Z.add_assoc, Nat.sub_add_distr.
           ++ apply Nat.leb_gt in Hrest.
              replace (length data + length (content src') <=? k)%nat with false
                by (symmetry; apply Nat.leb_gt; lia).
              rewrite take_app_ge by lia. rewrite <- app_assoc.
              by replace (written + Z.of_nat (length data) + Z.of_nat (k - length data))
                with (written + Z.of_nat k) by lia.
        -- apply Nat.leb_gt in Hfit.
           replace ((Z.of_nat k <? 0)%Z || (Z.of_nat (length data) <? Z.of_nat k)%Z) with false
             by (symmetry; apply orb_false_iff; split; apply Z.ltb_ge; lia).
           replace (length data + length (content src') <=? k)%nat with false
             by (symmetry; apply Nat.leb_gt; lia).
           by rewrite take_app_le by lia.
      * replace ((Z.of_nat (length data) <? 0)%Z
                 || (Z.of_nat (length data) <? Z.of_nat (length data))%Z) with false
          by (symmetry; apply orb_false_iff; split; apply Z.ltb_ge; lia).
        rewrite Z.eqb_refl. cbn [negb]. rewrite IH by lia.
        unfold copyOutcome. cbn [room accepted].
        by rewrite Hfinal, <- app_assoc, Nat2Z.inj_add, Z.add_assoc.
    + apply Z.ltb_ge in Hnr.
      assert (data = []) as -> by (destruct data; [done|cbn in Hnr; lia]).
      rewrite IH by lia. f_equal. by apply copyOutcome_nil_read.
  - assert (content src = []) as Hempty by (unfold content; by rewrite Hnil).
    cbn. unfold copyOutcome. rewrite Hempty. cbn [length].
    destruct dst as [acc [k|]]; cbn; rewrite ?app_nil_r, ?Z.add_0_r, ?Nat.sub_0_r; done.
Qed.

Lemma CopyBuffer_outcome (dst : Writer) (src : Reader) (n : positive) :
  CopyBuffer dst src n = copyOutcome dst src 0.
Proof. unfold CopyBuffer. by rewrite copyLoop_outcome by lia. Qed.

Section ClientMore.
Import Client.
Variable env : Env.
Implicit Types (s : BackupService) (st : Wire).

(** X13. Once the remote end has answered and [CheckError] has accepted the
    response, what [FetchBackupFile] returns and leaves in the sink depends
    on the bytes of the body, on how the body ends and on the room of the
    sink only. *)
Theorem FetchBackupFile_copy_outcome s backupID backupFile st u req resp :
  NewURL env (Addr s) (composeBackupFilePath env backupID backupFile) = inr u →
  NewRequest env MethodGet (String_ u) = inr req →
  roundTrip env (backupClient env s u) (SetToken (Token s) req) = inr resp →
  CheckError env resp = None →
  let body := content (RespBody resp) in
  let ended := if decide (final (RespBody resp) = EOF) then None else Some (final (RespBody resp)) in
  let r := FetchBackupFile env s backupID backupFile st in
  match room (sink st) with
  | None => r.1 = ended ∧ accepted (sink r.2) = accepted (sink st) ++ body
  | Some k =>
      if (length body <=? k)%nat
      then r.1 = ended ∧ accepted (sink r.2) = accepted (sink st) ++ body
           ∧ room (sink r.2) = Some (k - length body)%nat
      else r.1 = Some ENOSPC ∧ accepted (sink r.2) = accepted (sink st) ++ take k body
           ∧ room (sink r.2) = Some 0%nat
  end.
Proof.
  intros Hu Hreq Hresp Hcheck body ended r. subst body ended r.
  rewrite (FetchBackupFile_answered _ _ _ _ _ _ _ _ Hu Hreq Hresp), Hcheck.
  rewrite CopyBuffer_outcome. unfold copyOutcome. cbn zeta.
  destruct (room (sink st)) as [k|]; [|done].
  by destruct (length (content (RespBody resp)) <=? k)%nat.
Qed.

(** X14. [CreateBackup] returns the zero ID and no files with every error,
    and with no error the ID and the files that the decoder read from the
    body of a response that [CheckError] accepted; it never writes to the
    sink. *)
Theorem CreateBackup_result s st :
  let r := CreateBackup env s st in
  (∀ e, r.1.2 = Some e → r.1.1 = (0, []))
  ∧ (r.1.2 = None →
     ∃ u resp b,
       NewURL env (Addr s) backupPath = inr u
       ∧ sent r.2 = sent st ++ [(backupClient env s u,
                                 {| Method := MethodPost; Target := String_ u;
                                    Authorization := Some (Token s); WithCtx := true |})]
       ∧ roundTrip env (backupClient env s u)
           {| Method := MethodPost; Target := String_ u;
              Authorization := Some (Token s); WithCtx := true |} = inr resp
       ∧ CheckError env resp = None
       ∧ Decode env (RespBody resp) = inr b
       ∧ r.1.1 = (ID b, Files b))
  ∧ sink r.2 = sink st.
Proof.
  intros r. subst r. unfold CreateBackup.
  destruct (NewURL env (Addr s) backupPath) as [e|u] eqn:Hu; [done|].
  unfold NewRequest.
  destruct (newRequestError env MethodPost (String_ u)) as [e|]; [done|].
  unfold bind, hcDo. fold (backupClient env s u). cbn [SetToken WithContext Method Target Authorization WithCtx].
  destruct (roundTrip env (backupClient env s u) _) as [e|resp] eqn:Hresp; [done|].
  destruct (CheckError env resp) as [e|] eqn:Hcheck; [done|].
  destruct (Decode env (RespBody resp)) as [e|b] eqn:Hdec; [done|].
  cbn. split_and!; try done. intros _. by exists u, resp, b.
Qed.

(** X15. The request of [FetchBackupFile] is a GET for the URL of
    [composeBackupFilePath]; unlike the request of [CreateBackup] it goes
    out without the caller's context. *)
Theorem FetchBackupFile_request s backupID backupFile st :
  Forall (fun x => ∃ u,
            NewURL env (Addr s) (composeBackupFilePath env backupID backupFile) = inr u
            ∧ x = (backupClient env s u,
                   {| Method := MethodGet; Target := String_ u;
                      Authorization := Some (Token s); WithCtx := false |}))
    (sentBy (FetchBackupFile env s backupID backupFile) st).
Proof.
  destruct (NewURL env (Addr s) (composeBackupFilePath env backupID backupFile))
    as [e|u] eqn:Hu.
  { unfold FetchBackupFile. rewrite Hu. rewrite sentBy_ret. constructor. }
  destruct (NewRequest env MethodGet (String_ u)) as [e|req] eqn:Hreq.
  { unfold FetchBackupFile. rewrite Hu, Hreq. rewrite sentBy_ret. constructor. }
  assert (req = {| Method := MethodGet; Target := String_ u;
                   Authorization := None; WithCtx := false |}) as ->.
  { unfold NewRequest in Hreq. destruct (newRequestError env MethodGet (String_ u)); [done|].
    by injection Hreq as <-. }
  set (req0 := {| Method := MethodGet; Target := String_ u;
                  Authorization := None; WithCtx := false |}) in *.
  rewrite (sentBy_of_sent _ _ [(backupClient env s u, SetToken (Token s) req0)]).
  { repeat constructor. by exists u. }
  destruct (roundTrip env (backupClient env s u) (SetToken (Token s) req0))
    as [e|resp] eqn:Hresp.
  - unfold FetchBackupFile. rewrite Hu, Hreq. unfold exec, bind, hcDo.
    fold (backupClient env s u). by rewrite Hresp.
  - unfold exec. rewrite (FetchBackupFile_answered _ _ _ _ _ _ _ _ Hu Hreq Hresp).
    by destruct (CheckError env resp).
Qed.
End ClientMore.

(** ** The further properties at the scenarios *)

(** The two columns of [goodConfig], swapped. *)
Lemma validLogViewerConfig_order_irrelevant_witness :
  OrgConfig.validLogViewerConfig MoreScenarios.goodConfig = None
  ↔ OrgConfig.validLogViewerConfig MoreScenarios.goodConfigSwapped = None.
Proof.
  apply (validLogViewerConfig_order_irrelevant MoreScenarios.goodConfig
           MoreScenarios.goodConfigSwapped).
  apply perm_swap.
Defined.

Lemma Replace_success_witness :
  ∃ orgID cfg found m1,
    OrgConfig.hasOrganizationContext (Scenarios.request "good") = Some orgID
    ∧ OrgConfig.jsonDecode Scenarios.testOrgService (OrgConfig.Body (Scenarios.request "good"))
      = inr cfg
    ∧ OrgConfigSpec.wellFormed cfg
    ∧ OrgConfig.FindOrCreate (OrgConfig.Store Scenarios.testOrgService) orgID
        (OrgConfig.store Scenarios.emptyOrgWorld) = ((Some found, None), m1)
    ∧ OrgConfig.Update (OrgConfig.Store Scenarios.testOrgService)
        {| OrgConfig.OrganizationID := OrgConfig.OrganizationID found;
           OrgConfig.LogViewer := cfg |} m1
      = (None, OrgConfig.store
                 (exec (OrgConfig.ReplaceLogViewerOrganizationConfig Scenarios.testOrgService
                          (Scenarios.request "good")) Scenarios.emptyOrgWorld))
    ∧ OrgConfig.StatusOK = OrgConfig.StatusOK
    ∧ OrgConfig.newLogViewerConfigResponse MoreScenarios.goodConfig
      = OrgConfig.newLogViewerConfigResponse cfg.
Proof.
  apply (Replace_success Scenarios.testOrgService (Scenarios.request "good")
           Scenarios.emptyOrgWorld OrgConfig.StatusOK
           (OrgConfig.newLogViewerConfigResponse MoreScenarios.goodConfig)).
  vm_compute. reflexivity.
Defined.

Lemma keyedStore_findsOwn : OrgConfigRead.findsOwn MoreScenarios.keyedStore.
Proof.
  intros orgID m c e m'. cbn. destruct (m !! orgID); by intros [= <- _ _].
Qed.

Lemma keyedStore_readsItsWrites : OrgConfigRead.readsItsWrites MoreScenarios.keyedStore.
Proof.
  intros [org lv] m m'. cbn. intros [= <-]. by rewrite lookup_insert_eq.
Qed.

Lemma Replace_then_read_witness :
  OrgConfigRead.newOut
    (OrgConfigRead.LogViewerOrganizationConfig MoreScenarios.keyedService (Scenarios.request "good"))
    (exec (OrgConfig.ReplaceLogViewerOrganizationConfig MoreScenarios.keyedService
             (Scenarios.request "good")) MoreScenarios.keyedWorld)
  = [OrgConfig.RespJSON OrgConfig.StatusOK
       (OrgConfig.newLogViewerConfigResponse MoreScenarios.goodConfig)].
Proof.
  apply (Replace_then_read MoreScenarios.keyedService (Scenarios.request "good")
           MoreScenarios.keyedWorld).
  - exact keyedStore_findsOwn.
  - exact keyedStore_readsItsWrites.
  - vm_compute. reflexivity.
Defined.

Lemma handleCreate_success_disk_witness :
  nodes (Server.fs (exec (Server.handleCreate Scenarios.plainHandler) Scenarios.freshWorld))
    !! ["engine"; "backups"; "1"; "influxd.bolt"]
  = Some (File [x01; x02]).
Proof.
  assert (Server.reported (Server.trace (Server.handleCreate Scenarios.plainHandler)
                             Scenarios.freshWorld) = []) as Hok by (vm_compute; reflexivity).
  destruct (handleCreate_success_disk Scenarios.plainHandler Scenarios.freshWorld Hok)
    as (Hmeta & _).
  exact Hmeta.
Defined.

(** The snapshot fails and the backup directory is removed: [engine] is
    still there. *)
Lemma handleCreate_stays_in_backup_directory_witness :
  nodes (Server.fs (exec (Server.handleCreate Scenarios.snapshotFailsHandler)
                      Scenarios.freshWorld)) !! ["engine"] = Some Dir.
Proof.
  destruct (handleCreate_stays_in_backup_directory Scenarios.snapshotFailsHandler
              Scenarios.freshWorld ["engine"]) as [Hsame _].
  - vm_compute. intros [l Hl]. discriminate Hl.
  - etrans; [exact Hsame|]. vm_compute. reflexivity.
Defined.

Lemma handleFetchFile_calls_engine_witness :
  Server.trace (Server.handleFetchFile Scenarios.plainHandler MoreScenarios.goodParams)
    Scenarios.freshWorld
  = [Server.EvFetchBackupFile 1 "influxd.bolt" (Some Scenarios.ErrNotFound);
     Server.EvHandleHTTPError (Some Scenarios.ErrNotFound)].
Proof.
  destruct (handleFetchFile_calls_engine Scenarios.plainHandler MoreScenarios.goodParams
              Scenarios.freshWorld 1) as [Htrace _].
  - unfold minInt, maxInt. lia.
  - vm_compute. reflexivity.
  - exact Htrace.
Defined.

(** The transfer breaks after two bytes: both are in the sink, and the
    error of the transfer is returned. *)
Lemma FetchBackupFile_copy_outcome_witness :
  (Client.FetchBackupFile MoreScenarios.brokenEnv Scenarios.testService 1 "influxd.bolt"
     Scenarios.emptyWire).1 = Some MoreScenarios.ErrReset
  ∧ accepted (Client.sink (Client.FetchBackupFile MoreScenarios.brokenEnv Scenarios.testService 1
                             "influxd.bolt" Scenarios.emptyWire).2) = [x01; x02].
Proof.
  exact (FetchBackupFile_copy_outcome MoreScenarios.brokenEnv Scenarios.testService 1
           "influxd.bolt" Scenarios.emptyWire
           {| Client.Scheme := "http"; Client.String_ := Scenarios.metaURL |}
           {| Client.Method := "GET"; Client.Target := Scenarios.metaURL;
              Client.Authorization := None; Client.WithCtx := false |}
           {| Client.StatusCode := 200;
              Client.RespBody := {| chunks := [[x01; x02]]; final := MoreScenarios.ErrReset |} |}
           eq_refl eq_refl eq_refl eq_refl).
Defined.

(** A sink with room for two of the three bytes of the metadata file. *)
Example fetch_outcome_short_sink :
  (Client.FetchBackupFile Scenarios.testEnv Scenarios.testService 1 "influxd.bolt"
     {| Client.sent := []; Client.sink := {| accepted := []; room := Some 2%nat |} |}).1
  = Some ENOSPC.
Proof. vm_compute. reflexivity. Qed.

(** * Part IV: the client against the remote end                          *)

Section RemoteEnd.
Import Client Filepath.

(** ** Paths of plain names *)

Lemma segments_sep (a b : string) :
  noSeparator a = true → segments (a +:+ String "/" b) = a :: segments b.
Proof.
  induction a as [|c a IH]; cbn -[Ascii.eqb]; [done|].
  intros [Hc Ha]%andb_true_iff. apply negb_true_iff in Hc.
  change (String c a +:+ String "/" b) with (String c (a +:+ String "/" b)).
  cbn -[Ascii.eqb]. rewrite Hc. by rewrite (IH Ha).
Qed.

Lemma segments_plain (a : string) : noSeparator a = true → segments a = [a].
Proof.
  induction a as [|c a IH]; cbn -[Ascii.eqb]; [done|].
  intros [Hc Ha]%andb_true_iff. apply negb_true_iff in Hc. rewrite Hc.
  by rewrite (IH Ha).
Qed.

Lemma segments_concat (a : string) (l : list string) :
  noSeparator a = true → Forall (fun s => noSeparator s = true) l →
  segments (String.concat "/" (a :: l)) = a :: l.
Proof.
  intros Ha Hl. revert a Ha. induction Hl as [|b l Hb Hl IH]; intros a Ha.
  - cbn. by apply segments_plain.
  - change (String.concat "/" (a :: b :: l)) with (a +:+ String "/" (String.concat "/" (b :: l))).
    rewrite segments_sep by done. by rewrite IH.
Qed.

Lemma plainName_spec (s : string) :
  plainName s = true ↔ noSeparator s = true ∧ s ≠ "" ∧ s ≠ "." ∧ s ≠ "..".
Proof.
  unfold plainName. rewrite !andb_true_iff, !negb_true_iff, !String.eqb_neq. tauto.
Qed.

Lemma cleanStep_plain rooted out s : plainName s = true → cleanStep rooted out s = s :: out.
Proof.
  intros (_ & H1 & H2 & H3)%plainName_spec. unfold cleanStep.
  apply String.eqb_neq in H1, H2, H3. by rewrite H1, H2, H3.
Qed.

Lemma clean_fold_plain rooted (l out : list string) :
  Forall (fun s => plainName s = true) l →
  fold_left (cleanStep rooted) l out = rev l ++ out.
Proof.
  intros Hl. revert out. induction Hl as [|s l Hs Hl IH]; intros out; cbn; [done|].
  rewrite cleanStep_plain by done. rewrite IH. by rewrite <- app_assoc.
Qed.

(** A rooted path of plain names is clean. *)

(** A rooted path of plain names is clean. *)
Lemma Clean_rooted_plain (s : string) (l : list string) :
  Forall (fun s => plainName s = true) (s :: l) →
  Clean (String.concat "/" ("" :: s :: l)) = String.concat "/" ("" :: s :: l).
Proof.
  intros Hl. unfold Clean.
  assert (Forall (fun s => noSeparator s = true) (s :: l)) as Hsep.
  { eapply Forall_impl; [exact Hl|]. by intros x (? & _)%plainName_spec. }
  rewrite (segments_concat "" (s :: l)) by done.
  change (isRooted (String.concat "/" ("" :: s :: l))) with true.
  change (fold_left (cleanStep true) ("" :: s :: l) [])
    with (fold_left (cleanStep true) (s :: l) []).
  rewrite clean_fold_plain by done. rewrite app_nil_r, rev_involutive.
  change ("/" +:+ String.concat "/" (s :: l)) with (String "/" (String.concat "/" (s :: l))).
  done.
Qed.

Lemma uint_noSeparator (d : Decimal.uint) :
  noSeparator (DecimalString.NilEmpty.string_of_uint d) = true.
Proof. induction d; cbn; done. Qed.

Lemma uint_first_digit (d : Decimal.uint) c rest :
  DecimalString.NilEmpty.string_of_uint d = String c rest → isDigit c = true.
Proof. destruct d; cbn; intros [= <- _]; done. Qed.

Lemma FormatInt_plainName (n : Z) : plainName (Fmt.FormatInt n) = true.
Proof.
  apply plainName_spec. unfold Fmt.FormatInt.
  destruct n as [|p|p]; cbn [Z.to_int DecimalString.NilEmpty.string_of_int].
  - done.
  - destruct (DecimalString.NilEmpty.string_of_uint (Pos.to_uint p)) as [|c rest] eqn:Hs;
      [by apply FormatInt_nonempty_uint in Hs|].
    rewrite <- Hs. split; [apply uint_noSeparator|]. rewrite Hs.
    apply uint_first_digit in Hs.
    split_and!; try done; intros [= -> _]; done.
  - split; [apply (uint_noSeparator (Pos.to_uint p))|]. by split_and!.
Qed.

(** The path of a fetch for a plain file name. *)
Lemma composeBackupFilePath_plain (env : Env) backupID backupFile :
  filepathJoin env = Filepath.Join → Sprint env = Fmt.FormatInt →
  plainName backupFile = true →
  composeBackupFilePath env backupID backupFile
  = String.concat "/" [""; "api"; "v2"; "backup"; Fmt.FormatInt backupID; "file"; backupFile].
Proof.
  intros Hjoin Hsprint Hfile. unfold composeBackupFilePath. rewrite Hjoin, Hsprint.
  change (Filepath.Join [backupPath; Fmt.FormatInt backupID; "file"; backupFile])
    with (Clean (String.concat "/"
                   [""; "api"; "v2"; "backup"; Fmt.FormatInt backupID; "file"; backupFile])).
  apply Clean_rooted_plain.
  repeat (apply Forall_cons; split; [first [done | apply FormatInt_plainName]|]).
  done.
Qed.

(** That path matches the route of [handleFetchFile], with the ID and the
    name of the file as parameters. *)
Lemma matchPath_backupFile (d f : string) :
  plainName d = true → plainName f = true →
  Router.matchPath backupFilePath (String.concat "/" [""; "api"; "v2"; "backup"; d; "file"; f])
  = Some [("backup_id", d); ("backup_file", f)].
Proof.
  intros Hd Hf. unfold Router.matchPath.
  pose proof Hd as (Hd1 & Hd2 & _)%plainName_spec.
  pose proof Hf as (Hf1 & Hf2 & _)%plainName_spec.
  rewrite (segments_concat "" ["api"; "v2"; "backup"; d; "file"; f]);
    [|done|by repeat (apply Forall_cons; split; [done|])].
  change (segments backupFilePath)
    with [""; "api"; "v2"; "backup"; ":backup_id"; "file"; ":backup_file"].
  cbn. apply String.eqb_neq in Hd2, Hf2. by rewrite Hd2, Hf2.
Qed.

Lemma stripPrefix_app (pre s : string) : Remote.stripPrefix pre (pre +:+ s) = Some s.
Proof.
  induction pre as [|c pre IH]; [by destruct s|].
  change (String c pre +:+ s) with (String c (pre +:+ s)).
  cbn -[Ascii.eqb]. by rewrite Ascii.eqb_refl.
Qed.

(** ** The remote end, asked for a plain name *)

Lemma serve_plain (backups : Remote.Backups) addr hc req backupID backupFile :
  plainName backupFile = true → (minInt ≤ backupID ≤ maxInt)%Z →
  Method req = MethodGet →
  Target req = addr +:+ String.concat "/"
                 [""; "api"; "v2"; "backup"; Fmt.FormatInt backupID; "file"; backupFile] →
  Remote.serve addr backups hc req
  = inr match Remote.lookupBackupFile backups backupID backupFile with
        | Some data => {| StatusCode := 200; RespBody := {| chunks := [data]; final := EOF |} |}
        | None => {| StatusCode := 404; RespBody := {| chunks := []; final := EOF |} |}
        end.
Proof.
  intros Hfile Hrange Hget Htarget. unfold Remote.serve.
  rewrite Htarget, stripPrefix_app, Hget.
  change (MethodGet =? MethodGet)%string with true. cbv iota.
  rewrite matchPath_backupFile by (done || apply FormatInt_plainName).
  unfold Server.handleFetchFile.
  change (Server.ByName _ "backup_id") with (Fmt.FormatInt backupID).
  change (Server.ByName _ "backup_file") with backupFile.
  rewrite (Atoi_FormatInt _ Hrange).
  unfold exec, bind, Server.svcFetchBackupFile, Server.HandleHTTPError, Server.emit, modify, ret,
    Remote.fetchHandler, Remote.retrieval, Remote.startWorld.
  cbn [Server.hBackupService Server.FetchBackupFile Server.eng Server.fs Server.w Server.log].
  destruct (Remote.lookupBackupFile backups backupID backupFile) as [data|]; done.
Qed.

Variables (backups : Remote.Backups) (s : BackupService).

Lemma Remote_fetch_answered backupID backupFile st :
  plainName backupFile = true → (minInt ≤ backupID ≤ maxInt)%Z →
  let env := Remote.env (Addr s) backups in
  let hc := {| Timeout := Hour; SkipVerify := InsecureSkipVerify s |} in
  FetchBackupFile env s backupID backupFile st =
    match Remote.lookupBackupFile backups backupID backupFile with
    | Some data =>
        let r := CopyBuffer (sink st) {| chunks := [data]; final := EOF |} (1024 * 1024) in
        (r.1.2, {| sent := sent st ++ [(hc, Remote.fetchRequest s backupID backupFile)];
                   sink := r.2 |})
    | None =>
        (Some Remote.ErrNotFound,
         {| sent := sent st ++ [(hc, Remote.fetchRequest s backupID backupFile)];
            sink := sink st |})
    end.
Proof.
  intros Hfile Hrange env hc.
  pose proof (composeBackupFilePath_plain env backupID backupFile eq_refl eq_refl Hfile) as Hpath.
  set (u := {| Scheme := "http";
               String_ := Addr s +:+ composeBackupFilePath env backupID backupFile |}).
  set (req := {| Method := MethodGet; Target := String_ u; Authorization := None;
                 WithCtx := false |}).
  assert (NewURL env (Addr s) (composeBackupFilePath env backupID backupFile) = inr u)
    as Hu by done.
  assert (NewRequest env MethodGet (String_ u) = inr req) as Hreq.
  { reflexivity. }
  assert (backupClient env s u = hc) as Hhc by done.
  assert (SetToken (Token s) req = Remote.fetchRequest s backupID backupFile) as Hsent.
  { unfold SetToken, Remote.fetchRequest. subst req u. cbn [Method Target WithCtx String_].
    by rewrite Hpath. }
  assert (roundTrip env hc (Remote.fetchRequest s backupID backupFile)
          = Remote.serve (Addr s) backups hc (Remote.fetchRequest s backupID backupFile))
    as Hround by done.
  rewrite (serve_plain backups (Addr s) hc (Remote.fetchRequest s backupID backupFile) backupID
             backupFile Hfile Hrange eq_refl eq_refl)
    in Hround.
  rewrite <- Hhc, <- Hsent in Hround |- *.
  rewrite (FetchBackupFile_answered env s backupID backupFile st u req _ Hu Hreq Hround).
  by destruct (Remote.lookupBackupFile backups backupID backupFile).
Qed.


(** The same pair, when it resolves: the bytes of the file reach a sink
    without limit, after what it held. *)
Lemma FetchBackupFile_resolved_served backupID backupFile data st :
  plainName backupFile = true → (minInt ≤ backupID ≤ maxInt)%Z →
  Remote.lookupBackupFile backups backupID backupFile = Some data →
  room (sink st) = None →
  let r := FetchBackupFile (Remote.env (Addr s) backups) s backupID backupFile st in
  r.1 = None ∧ accepted (sink r.2) = accepted (sink st) ++ data.
Proof.
  intros Hfile Hrange Hsome Hroom r. subst r.
  rewrite (Remote_fetch_answered backupID backupFile st Hfile Hrange), Hsome.
  rewrite CopyBuffer_complete by done. cbn. by rewrite app_nil_r.
Qed.

End RemoteEnd.


Example fetch_dotdot :
  Remote.lookupBackupFile Remote.oneBackup 5 "../../1/file/influxd.bolt" = None
  ∧ Client.composeBackupFilePath
      (Remote.env (Client.Addr Scenarios.testService) Remote.oneBackup)
      5 "../../1/file/influxd.bolt"
    = "/api/v2/backup/1/file/influxd.bolt"
  ∧ Client.FetchBackupFile (Remote.env (Client.Addr Scenarios.testService) Remote.oneBackup)
      Scenarios.testService 5 "../../1/file/influxd.bolt" Scenarios.emptyWire
    = (None,
       {| Client.sent :=
            [({| Client.Timeout := 3600000000000; Client.SkipVerify := false |},
              {| Client.Method := "GET"; Client.Target := Scenarios.metaURL;
                 Client.Authorization := Some "s3cr3t"; Client.WithCtx := false |})];
          Client.sink := {| accepted := [x01; x02; x03]; room := None |} |}).
Proof. vm_compute. split_and!; reflexivity. Qed.

(** What [filepath.Clean] does with the paths of its documentation. *)
Example Clean_examples :
  Filepath.Clean "a/c" = "a/c" ∧ Filepath.Clean "a//c" = "a/c"
  ∧ Filepath.Clean "a/c/." = "a/c" ∧ Filepath.Clean "a/c/b/.." = "a/c"
  ∧ Filepath.Clean "/../a/c" = "/a/c" ∧ Filepath.Clean "/../a/b/../././/c" = "/a/c"
  ∧ Filepath.Clean "" = "." ∧ Filepath.Clean "/" = "/" ∧ Filepath.Clean "../a/.." = ".."
  ∧ Filepath.Clean "a/../.." = ".." ∧ Filepath.Clean "a/b/" = "a/b"
  ∧ Filepath.Clean "abc/def/../../.." = ".." ∧ Filepath.Clean "/abc/def/../../.." = "/"
  ∧ Filepath.Clean "abc/def/../../../ghi/jkl/../../../mno" = "../../mno"
  ∧ Filepath.Clean "abc/./../def" = "def" ∧ Filepath.Clean "abc/../../././../def" = "../../def"
  ∧ Filepath.Clean "../.." = "../.." ∧ Filepath.Clean "..." = "..."
  ∧ Filepath.Join ["a"; "b"; "../../../xyz"] = "../xyz"
  ∧ Filepath.Join [""; ""] = "" ∧ Filepath.Join ["a"; ""] = "a" ∧ Filepath.Join [""; "a"] = "a".
Proof. vm_compute. split_and!; reflexivity. Qed.


(** Backup 1 has its metadata file: the three bytes arrive. *)
Example fetch_resolved :
  Client.FetchBackupFile (Remote.env (Client.Addr Scenarios.testService) Remote.oneBackup)
    Scenarios.testService 1 "influxd.bolt" Scenarios.emptyWire
  = (None,
     {| Client.sent := [({| Client.Timeout := 3600000000000; Client.SkipVerify := false |},
                         Remote.fetchRequest Scenarios.testService 1 "influxd.bolt")];
        Client.sink := {| accepted := [x01; x02; x03]; room := None |} |}).
Proof. vm_compute. reflexivity. Qed.
